(** * The name/table record parser of the invitation backend

    A shallow embedding of [parseNamesFromText] (src/server.js), of the
    spreadsheet branch of [extractNamesFromFile] (src/server.js) and of
    [parseDocxNames] (src/utils/docxParser.js), followed by the properties
    the specification states about them.

    JavaScript strings are sequences of UTF-16 code units; a code unit is
    modelled as a number in [N], a string as a list of them.  Every
    character the parser inspects (line ends, delimiters, white space)
    lies in the Basic Multilingual Plane, so it is one code unit.

    [String.prototype.toLowerCase] is the host's Unicode case mapping.  Its
    tables are not part of the repository, so the parser is embedded over an
    arbitrary mapping [toLowerCase]; the only fact used about it is that it
    maps the empty string to the empty string.  [toLowerCaseLatin1] is the
    mapping on the code units below 256, used to run the parser. *)

From Stdlib Require Import List Arith NArith Bool Lia String Ascii.
From Stdlib Require Import ZArith DecimalString DecimalZ.
Import ListNotations.

Local Open Scope N_scope.

(** ** Strings *)

Module JS.

Definition codeunit := N.
Definition jsstring := list codeunit.

(** A string literal of the source, as code units. *)
Definition lit (s : string) : jsstring :=
  List.map N_of_ascii (list_ascii_of_string s).

Definition TAB : codeunit := 9.
Definition LF : codeunit := 10.
Definition CR : codeunit := 13.
Definition SPACE : codeunit := 32.
Definition COLON : codeunit := 58.
Definition EQUALS : codeunit := 61.

(** [s === t] of two strings. *)
Fixpoint eqb (s t : jsstring) : bool :=
  match s, t with
  | [], [] => true
  | c :: s', d :: t' => (c =? d) && eqb s' t'
  | _, _ => false
  end.

(** [s === ''], which is also [!s] for a string. *)
Definition isEmpty (s : jsstring) : bool :=
  match s with [] => true | _ :: _ => false end.

(** ECMAScript WhiteSpace and LineTerminator: what [trim] strips and what
    the regular expression class [\s] matches. *)
Definition isWhiteSpace (c : codeunit) : bool :=
  (c =? 9) || (c =? 10) || (c =? 11) || (c =? 12) || (c =? 13) ||
  (c =? 32) || (c =? 160) || (c =? 5760) ||
  ((8192 <=? c) && (c <=? 8202)) ||
  (c =? 8232) || (c =? 8233) || (c =? 8239) || (c =? 8287) ||
  (c =? 12288) || (c =? 65279).

Fixpoint trimStart (s : jsstring) : jsstring :=
  match s with
  | [] => []
  | c :: s' => if isWhiteSpace c then trimStart s' else s
  end.

Definition trimEnd (s : jsstring) : jsstring :=
  rev (trimStart (rev s)).

(** [s.trim()] *)
Definition trim (s : jsstring) : jsstring :=
  trimEnd (trimStart s).

(** [s.replace(/\s+/g, '')]: every maximal run of white space is replaced
    by nothing, so exactly the white space code units disappear. *)
Fixpoint removeWhiteSpace (s : jsstring) : jsstring :=
  match s with
  | [] => []
  | c :: s' => if isWhiteSpace c then removeWhiteSpace s'
               else c :: removeWhiteSpace s'
  end.

(** [s.includes(c)] for a one-character [c]. *)
Definition includes (c : codeunit) (s : jsstring) : bool :=
  existsb (N.eqb c) s.

(** Puts [c] in front of the first segment of a split under way. *)
Definition consFirst (c : codeunit) (segs : list jsstring) : list jsstring :=
  match segs with
  | seg :: rest => (c :: seg) :: rest
  | [] => [[c]]
  end.

(** [s.split(sep)] for a separator that matches exactly one code unit:
    the string ['='], the string [':'] or the class [/[:\t]/].  The empty
    string splits into one empty segment. *)
Fixpoint split (sep : codeunit -> bool) (s : jsstring) : list jsstring :=
  match s with
  | [] => [[]]
  | c :: s' => if sep c then [] :: split sep s'
               else consFirst c (split sep s')
  end.

(** [s.split(/\r?\n/)]: at each position the pattern matches a line feed,
    or a carriage return directly followed by one. *)
Fixpoint splitLines (s : jsstring) : list jsstring :=
  match s with
  | [] => [[]]
  | c :: s' =>
      if c =? LF then [] :: splitLines s'
      else
        match s' with
        | d :: s'' =>
            if (c =? CR) && (d =? LF) then [] :: splitLines s''
            else consFirst c (splitLines s')
        | [] => consFirst c (splitLines s')
        end
  end.

(** [parts.join(sep)] *)
Fixpoint join (sep : jsstring) (parts : list jsstring) : jsstring :=
  match parts with
  | [] => []
  | p :: ps =>
      match ps with
      | [] => p
      | _ :: _ => p ++ sep ++ join sep ps
      end
  end.

(** [parts.slice(1)] *)
Definition slice1 (parts : list jsstring) : list jsstring := skipn 1 parts.

(** The outcome of an expression that may throw.  The parser's only
    possible exception is the [TypeError] of calling [trim] on the
    [undefined] that an out-of-range array index yields. *)
Inductive result (A : Type) : Type :=
| Ok (a : A)
| TypeError.
Arguments Ok {A} a.
Arguments TypeError {A}.

Definition bind {A B : Type} (r : result A) (k : A -> result B) : result B :=
  match r with
  | Ok a => k a
  | TypeError => TypeError
  end.

(** [xs.map(f)] for a callback that may throw. *)
Fixpoint mapM {A B : Type} (f : A -> result B) (xs : list A) : result (list B) :=
  match xs with
  | [] => Ok []
  | x :: xs' =>
      bind (f x) (fun y => bind (mapM f xs') (fun ys => Ok (y :: ys)))
  end.

(** [parts[i].trim()] *)
Definition trimAt (parts : list jsstring) (i : nat) : result jsstring :=
  match nth_error parts i with
  | Some s => Ok (trim s)
  | None => TypeError
  end.

End JS.

Import JS.

Notation "x <- r ;; k" := (bind r (fun x => k))
  (at level 61, r at next level, right associativity).

(** ** The parser *)

Record item : Type := mkItem { name : jsstring; table : jsstring }.

Definition isEquals (c : codeunit) : bool := c =? EQUALS.
Definition isColon (c : codeunit) : bool := c =? COLON.
(** The class [[:\t]] *)
Definition isColonOrTab (c : codeunit) : bool := (c =? COLON) || (c =? TAB).

(** The callback of [lines.map] in [parseNamesFromText]. *)
Definition parseLine (line : jsstring) : result item :=
  let parts := split isEquals line in
  if (2 <=? List.length parts)%nat then
    n <- trimAt parts 0 ;;
    Ok {| name := n; table := trim (join [EQUALS] (slice1 parts)) |}
  else
    let altParts := split isColonOrTab line in
    if (2 <=? List.length altParts)%nat then
      n <- trimAt altParts 0 ;;
      t <- trimAt altParts 1 ;;
      Ok {| name := n; table := t |}
    else
      Ok {| name := trim line; table := [] |}.

(** The callback of [lines.map] in [parseDocxNames]. *)
Definition parseDocxLine (line : jsstring) : result item :=
  let parts := split isEquals line in
  if (2 <=? List.length parts)%nat then
    n <- trimAt parts 0 ;;
    Ok {| name := n; table := trim (join [EQUALS] (slice1 parts)) |}
  else
    Ok {| name := trim line; table := [] |}.

(** [line => line.trim() !== ''] *)
Definition notBlank (line : jsstring) : bool := negb (JS.eqb (trim line) []).

(** A spreadsheet row as [sheet_to_json] with [header: 1] gives it: an
    array of cells, a cell without a value being a hole.  Cells are text,
    as in the specification's interface. *)
Definition row := list (option jsstring).

(** [String(row[i] || '')] *)
Definition cellText (r : row) (i : nat) : jsstring :=
  match nth_error r i with
  | Some (Some s) => s
  | _ => []
  end.

(** The callback of [data.map] in the spreadsheet branch of
    [extractNamesFromFile]. *)
Definition parseRow (r : row) : result item :=
  let name0 := trim (cellText r 0) in
  let table0 := trim (cellText r 1) in
  if isEmpty table0 && includes EQUALS name0 then
    let parts := split isEquals name0 in
    n <- trimAt parts 0 ;;
    t <- trimAt parts 1 ;;
    Ok {| name := n; table := t |}
  else if isEmpty table0 && includes COLON name0 then
    let parts := split isColon name0 in
    n <- trimAt parts 0 ;;
    t <- trimAt parts 1 ;;
    Ok {| name := n; table := t |}
  else
    Ok {| name := name0; table := table0 |}.

(** The spreadsheet branch of [extractNamesFromFile], from the rows of the
    first sheet on ([parseTabularRecords] in the specification). *)
Definition extractNamesFromRows (data : list row) : result (list item) :=
  items <- mapM parseRow data ;;
  Ok (filter (fun it => negb (isEmpty (name it))) items).

Section Parser.

Variable toLowerCase : jsstring -> jsstring.

(** [item.name.toLowerCase().replace(/\s+/g, '')] *)
Definition norm (it : item) : jsstring :=
  removeWhiteSpace (toLowerCase (name it)).

(** The callback of the final [filter]. *)
Definition keepItem (it : item) : bool :=
  negb (JS.eqb (norm it) (lit "liste")) && negb (JS.eqb (norm it) []).

(** [parseNamesFromText] from the array [text.split(/\r?\n/)] on. *)
Definition parseRawLines (raw : list jsstring) : result (list item) :=
  let lines := filter notBlank raw in
  items <- mapM parseLine lines ;;
  Ok (filter keepItem items).

Definition parseNamesFromText (text : jsstring) : result (list item) :=
  parseRawLines (splitLines text).

(** [parseDocxNames] from the extracted text [value || ''] on; the
    surrounding [try]/[catch] turns an exception into the empty array. *)
Definition parseDocxNames (text : jsstring) : list item :=
  let lines := filter notBlank (splitLines text) in
  match mapM parseDocxLine lines with
  | Ok items => filter keepItem items
  | TypeError => []
  end.

End Parser.

(** The case mapping on the code units below 256: the letters A-Z and the
    Latin-1 capitals U+00C0-U+00DE (the sign U+00D7 apart) move 32 up. *)
Definition lowerLatin1 (c : codeunit) : codeunit :=
  if ((65 <=? c) && (c <=? 90)) ||
     ((192 <=? c) && (c <=? 222) && negb (c =? 215))
  then c + 32 else c.

Definition toLowerCaseLatin1 (s : jsstring) : jsstring := List.map lowerLatin1 s.

(** The test input of the repository's own script. *)
Definition testCases : jsstring :=
  lit "John Doe = Table 1" ++ [LF] ++
  lit "Jane Smith=Table 5" ++ [LF] ++
  lit "Bob Martin : Table 10" ++ [LF] ++
  lit "Alice Wonderland" ++ [TAB] ++ lit "Table 2" ++ [LF] ++
  lit "Just a Name" ++ [LF] ++
  lit "Liste" ++ [LF] ++
  lit "   " ++ [LF] ++
  lit "Name = Table = Something".

(** ** Derived notions *)

(** Empty or white space only. *)
Definition allWhiteSpace (s : jsstring) : bool := forallb isWhiteSpace s.

(** The record a line resolves to. *)
Definition lineItem (line : jsstring) : item :=
  match parseLine line with
  | Ok it => it
  | TypeError => {| name := []; table := [] |}
  end.

(** The record a row resolves to. *)
Definition rowItem (r : row) : item :=
  match parseRow r with
  | Ok it => it
  | TypeError => {| name := []; table := [] |}
  end.

(** ** Sample inputs *)

Definition colonLine : jsstring := lit "Bob Martin : Table 10 : door".
Definition plainLine : jsstring := lit "Just a Name".
Definition blankLine : jsstring := lit "   ".
Definition trailingTabLine : jsstring := lit "Alice" ++ [TAB].
Definition equalsCell : jsstring := lit "Name = Table = Something".
Definition johnDoe : item :=
  {| name := lit "John Doe"; table := lit "Table 1" |}.

(** ** Writing records back as text *)

(** A record as a line of the list file: name, equals sign, table. *)
Definition serializeItem (it : item) : jsstring :=
  name it ++ lit " = " ++ table it.

(** The records as a text, one line each. *)
Definition serialize (items : list item) : jsstring :=
  join [LF] (List.map serializeItem items).

(** The string without its last code unit, if that is a carriage return. *)
Fixpoint dropLastCR (s : jsstring) : jsstring :=
  match s with
  | [] => []
  | c :: s' =>
      match s' with
      | [] => if c =? CR then [] else [c]
      | _ :: _ => c :: dropLastCR s'
      end
  end.

(** [f] applied to the last element of an array. *)
Fixpoint mapLast {A : Type} (f : A -> A) (xs : list A) : list A :=
  match xs with
  | [] => []
  | x :: xs' =>
      match xs' with
      | [] => [f x]
      | _ :: _ => x :: mapLast f xs'
      end
  end.

(** A record that [parseLine] can give for a line of a split text. *)
Definition cleanItem (it : item) : Prop :=
  trim (name it) = name it /\ trim (table it) = table it /\
  includes EQUALS (name it) = false /\
  includes LF (name it) = false /\ includes LF (table it) = false.

(** ** The overlay text *)

Definition AMPERSAND : codeunit := 38.
Definition LESS : codeunit := 60.
Definition GREATER : codeunit := 62.

(** [s.replace(/c/g, by)] for a pattern [c] of one code unit. *)
Fixpoint replaceAll (c : codeunit) (by_ : jsstring) (s : jsstring) : jsstring :=
  match s with
  | [] => []
  | d :: s' => if d =? c then by_ ++ replaceAll c by_ s'
               else d :: replaceAll c by_ s'
  end.

(** [safeStr] of [buildSVGOverlay]; [None] is a text that is [undefined]
    or [null]. *)
Definition safeStr (s : option jsstring) : jsstring :=
  let s0 := match s with Some t => t | None => [] end in
  replaceAll GREATER (lit "&gt;")
    (replaceAll LESS (lit "&lt;")
       (replaceAll AMPERSAND (lit "&amp;") s0)).

(** Reads the three entities of [safeStr] back. *)
Fixpoint unescape (s : jsstring) : jsstring :=
  match s with
  | [] => []
  | c :: s' =>
      if c =? AMPERSAND then
        match s' with
        | 97 :: 109 :: 112 :: 59 :: rest => AMPERSAND :: unescape rest
        | 108 :: 116 :: 59 :: rest => LESS :: unescape rest
        | 103 :: 116 :: 59 :: rest => GREATER :: unescape rest
        | _ => c :: unescape s'
        end
      else c :: unescape s'
  end.

(** What [safeStr] writes for one code unit. *)
Definition escapeUnit (c : codeunit) : jsstring :=
  if c =? AMPERSAND then lit "&amp;"
  else if c =? LESS then lit "&lt;"
  else if c =? GREATER then lit "&gt;"
  else [c].

(** ** The output files of a batch *)

Definition ZERO : codeunit := 48.
Definition HYPHEN : codeunit := 45.
Definition DOT : codeunit := 46.
Definition SLASH : codeunit := 47.
Definition BACKSLASH : codeunit := 92.
Definition UNDERSCORE : codeunit := 95.

(** The class [[a-z0-9_-]] under the flag [i]. *)
Definition isNameChar (c : codeunit) : bool :=
  ((97 <=? c) && (c <=? 122)) || ((65 <=? c) && (c <=? 90)) ||
  ((48 <=? c) && (c <=? 57)) || (c =? UNDERSCORE) || (c =? HYPHEN).

(** [s.replace(/[^a-z0-9_-]+/gi, '_')], read from left to right: the
    first code unit of a run outside the class gives an underscore, the
    rest of the run gives nothing; [inRun] says that a run is under way. *)
Fixpoint sanitizeFrom (inRun : bool) (s : jsstring) : jsstring :=
  match s with
  | [] => []
  | c :: s' =>
      if isNameChar c then c :: sanitizeFrom false s'
      else if inRun then sanitizeFrom true s'
           else UNDERSCORE :: sanitizeFrom true s'
  end.

Definition sanitizeName (s : jsstring) : jsstring := sanitizeFrom false s.

(** [String(n)] for an integer [n]. *)
Definition toStringZ (n : Z) : jsstring :=
  lit (NilEmpty.string_of_int (Z.to_int n)).

(** [s.padStart(n, fill)] for a filler of one code unit. *)
Definition padStart (n : nat) (fill : codeunit) (s : jsstring) : jsstring :=
  repeat fill (n - List.length s) ++ s.

(** The file name of the invitation of [entry], the record at index
    [idx], in [/api/generate]. *)
Definition outputFileName (idx : Z) (entry : item) : jsstring :=
  padStart 3 ZERO (toStringZ (idx + 1)) ++ lit "-" ++
  sanitizeName (name entry) ++ lit ".png".

(** [Number(v) || d] for a field of the request that is an integer, or
    that has no number ([None]: the field is missing, or is not a
    number).  Zero is falsy. *)
Definition numberOr (v : option Z) (d : Z) : Z :=
  match v with
  | Some n => if (n =? 0)%Z then d else n
  | None => d
  end.

Definition batchStart (offset : option Z) : Z :=
  Z.max 0 (numberOr offset 0).

Definition batchSize (limit : option Z) : Z :=
  Z.min 50 (numberOr limit 50).

Definition endExclusive (total : nat) (offset limit : option Z) : Z :=
  Z.min (Z.of_nat total) (batchStart offset + batchSize limit).

(** The [processed] field of the response. *)
Definition processed (total : nat) (offset limit : option Z) : Z :=
  endExclusive total offset limit - batchStart offset.

(** [names[idx]] for an integer [idx]. *)
Definition entryAt (names : list item) (idx : Z) : option item :=
  if (idx <? 0)%Z then None else nth_error names (Z.to_nat idx).

Module Generate.
Section Generate.

(** The values of the request body that are handed on as they are. *)
Variable V : Type.
(** [v === null] *)
Variable isNull : V -> bool.
(** Whether [v] is truthy. *)
Variable truthy : V -> bool.

Record element : Type := mkElement {
  text : jsstring;
  x : V;
  y : V;
  fontFamily : V;
  fontSize : V;
  color : V
}.

Record request : Type := mkRequest {
  rx : V; ry : V; tx : V; ty : V; useTable : V;
  rfontFamily : V; rfontSize : V; rcolor : V;
  offset : option Z; limit : option Z
}.

(** A call of [composeImageWithElements]: the file to write and the
    texts to put on the model. *)
Definition job : Type := (jsstring * list element)%type.

(** The body of the loop of [/api/generate] up to the call that draws. *)
Definition renderJob (req : request) (idx : Z) (entry : item) : job :=
  let first := mkElement (name entry) (rx req) (ry req)
                 (rfontFamily req) (rfontSize req) (rcolor req) in
  let elements :=
    if truthy (useTable req) && negb (isNull (tx req)) && negb (isNull (ty req))
    then [first;
          mkElement (table entry) (tx req) (ty req)
            (rfontFamily req) (rfontSize req) (rcolor req)]
    else [first] in
  (outputFileName idx entry, elements).

(** The loop [for (idx = ...; idx < endExclusive; idx++)], with [n] rounds
    to go; [entry.name] throws when [names[idx]] is [undefined]. *)
Fixpoint generateLoop (req : request) (names : list item) (n : nat) (idx : Z)
  : result (list job) :=
  match n with
  | O => Ok []
  | S n' =>
      match entryAt names idx with
      | None => TypeError
      | Some entry =>
          rest <- generateLoop req names n' (idx + 1) ;;
          Ok (renderJob req idx entry :: rest)
      end
  end.

(** The calls of [composeImageWithElements] that [/api/generate] makes
    for the names of the session. *)
Definition generateJobs (req : request) (names : list item) : result (list job) :=
  let start := batchStart (offset req) in
  let stop := endExclusive (List.length names) (offset req) (limit req) in
  generateLoop req names (Z.to_nat (stop - start)) start.

(** The text of the first element of a call: the name. *)
Definition jobTitle (j : job) : jsstring :=
  match snd j with
  | el :: _ => text el
  | [] => []
  end.

(** The calls for the records [entries], the first of them at [idx]. *)
Fixpoint jobsFrom (req : request) (idx : Z) (entries : list item) : list job :=
  match entries with
  | [] => []
  | entry :: rest => renderJob req idx entry :: jobsFrom req (idx + 1) rest
  end.

(** The request with another offset. *)
Definition withOffset (req : request) (o : option Z) : request :=
  mkRequest (rx req) (ry req) (tx req) (ty req) (useTable req)
    (rfontFamily req) (rfontSize req) (rcolor req) o (limit req).

(** The names drawn by a batch. *)
Definition titles (r : result (list job)) : list jsstring :=
  match r with
  | Ok jobs => List.map jobTitle jobs
  | TypeError => []
  end.

End Generate.
End Generate.

(** ** Reading the list file *)

(** What a call into the file system or a reader library gives:
    a value, or an exception. *)
Inductive outcome (A : Type) : Type :=
| Returns (a : A)
| Throws.
Arguments Returns {A} a.
Arguments Throws {A}.

(** The list file as [extractNamesFromFile] sees it: the extension of its
    path and what each reader gives for it.  [None] is a text that the
    reader gives as [undefined], [null] or the empty string. *)
Record listFile : Type := mkListFile {
  (** [path.extname(filePath)] *)
  extname : jsstring;
  (** [fs.readFileSync(filePath, 'utf8')] *)
  utf8 : outcome jsstring;
  (** The rows of the first sheet: [xlsx.readFile], [sheet_to_json]. *)
  sheetRows : outcome (list row);
  (** [value] of [mammoth.extractRawText] *)
  docxValue : outcome (option jsstring);
  (** [data.text] of [pdfParse] on the bytes of the file *)
  pdfText : outcome (option jsstring)
}.

(** [v || ''] *)
Definition orEmpty (v : option jsstring) : jsstring :=
  match v with Some t => t | None => [] end.

(** An exception of the parser goes on to the caller. *)
Definition rethrow {A : Type} (r : result A) : outcome A :=
  match r with Ok a => Returns a | TypeError => Throws end.

(** [try { return r } catch { return [] }] *)
Definition orNone {A : Type} (r : result (list A)) : outcome (list A) :=
  match r with Ok a => Returns a | TypeError => Returns [] end.

Section ListFile.

Variable toLowerCase : jsstring -> jsstring.

Definition extractNamesFromFile (f : listFile) : outcome (list item) :=
  let ext := toLowerCase (extname f) in
  if JS.eqb ext (lit ".csv") then
    match utf8 f with
    | Returns content => rethrow (parseNamesFromText toLowerCase content)
    | Throws => Throws
    end
  else if JS.eqb ext (lit ".xlsx") || JS.eqb ext (lit ".xls") then
    match sheetRows f with
    | Returns data => rethrow (extractNamesFromRows data)
    | Throws => Throws
    end
  else if JS.eqb ext (lit ".docx") then
    match docxValue f with
    | Returns value => rethrow (parseNamesFromText toLowerCase (orEmpty value))
    | Throws => Throws
    end
  else if JS.eqb ext (lit ".pdf") then
    match pdfText f with
    | Returns t => orNone (parseNamesFromText toLowerCase (orEmpty t))
    | Throws => Returns []
    end
  else
    match utf8 f with
    | Returns content => orNone (parseNamesFromText toLowerCase content)
    | Throws => Returns []
    end.

End ListFile.

(** ** Ranges of code units and of numbers *)

(** A string whose code units are all below 256. *)
Definition isLatin1 (s : jsstring) : bool := forallb (fun c => c <? 256) s.

(** A field of the request that is missing or is an integer that a
    JavaScript number holds exactly: at most [Number.MAX_SAFE_INTEGER] in
    absolute value. *)
Definition safeInteger (v : option Z) : Prop :=
  match v with
  | Some n => (- (2 ^ 53 - 1) <= n <= 2 ^ 53 - 1)%Z
  | None => True
  end.

(** ** More sample inputs *)

Definition sampleNames : list item :=
  [ johnDoe;
    mkItem (lit "Jane Smith") (lit "Table 5");
    mkItem (lit "John Doe") (lit "Table 9") ].

(** A request for the batch of two records from the second one on; the
    values handed on are taken as booleans here. *)
Definition sampleRequest : Generate.request bool :=
  Generate.mkRequest bool false false false false true false false false
    (Some 1%Z) (Some 2%Z).

Definition sampleNull (v : bool) : bool := false.
Definition sampleTruthy (v : bool) : bool := v.

(** A PDF list that cannot be read. *)
Definition samplePdfFile : listFile :=
  {| extname := lit ".pdf";
     utf8 := Throws;
     sheetRows := Throws;
     docxValue := Throws;
     pdfText := Throws |}.

(** Three spellings of the header word, a longer word and a line without
    name. *)
Definition listeText : jsstring :=
  lit "L i s t e" ++ [LF] ++ lit "LISTE = 4" ++ [LF] ++ lit "Liste" ++ [LF] ++
  lit "Listeria" ++ [LF] ++ lit " = 7".

(** A DOCX list whose extension is in capitals. *)
Definition sampleListFile : listFile :=
  {| extname := lit ".DOCX";
     utf8 := Throws;
     sheetRows := Throws;
     docxValue := Returns (Some testCases);
     pdfText := Throws |}.

(** ** Facts about the string operations *)

Section StringFacts.

Implicit Types (s t w : jsstring) (c d : codeunit).

Lemma eqb_eq s t : JS.eqb s t = true <-> s = t.
Proof.
  revert t; induction s as [|c s IH]; intros [|d t]; simpl; split;
    try congruence; try reflexivity.
  - intros H. apply andb_true_iff in H as [Hc Hs].
    apply N.eqb_eq in Hc. apply IH in Hs. congruence.
  - intros H. injection H as -> ->. rewrite N.eqb_refl. simpl.
    apply IH. reflexivity.
Qed.

Lemma eqb_nil s : JS.eqb s [] = isEmpty s.
Proof. destruct s; reflexivity. Qed.

Lemma isEmpty_true s : isEmpty s = true <-> s = [].
Proof. destruct s; simpl; split; congruence. Qed.

Lemma isEmpty_false s : isEmpty s = false <-> s <> [].
Proof. destruct s; simpl; split; congruence. Qed.

(** *** trim *)

Lemma trimStart_allWhiteSpace s : allWhiteSpace s = true -> trimStart s = [].
Proof.
  induction s as [|c s IH]; simpl; [reflexivity|].
  intros H. apply andb_true_iff in H as [Hc Hs]. rewrite Hc. auto.
Qed.

Lemma trimStart_nil s : trimStart s = [] -> allWhiteSpace s = true.
Proof.
  induction s as [|c s IH]; simpl; [reflexivity|].
  destruct (isWhiteSpace c); simpl; [exact IH | discriminate].
Qed.

Lemma trimStart_app s t :
  trimStart (s ++ t) =
  if allWhiteSpace s then trimStart t else trimStart s ++ t.
Proof.
  induction s as [|c s IH]; simpl; [reflexivity|].
  destruct (isWhiteSpace c); simpl; [exact IH | reflexivity].
Qed.

Lemma trimStart_idem s : trimStart (trimStart s) = trimStart s.
Proof.
  induction s as [|c s IH]; simpl; [reflexivity|].
  destruct (isWhiteSpace c) eqn:Hc; [exact IH | simpl; rewrite Hc; reflexivity].
Qed.

Lemma allWhiteSpace_rev s : allWhiteSpace (rev s) = allWhiteSpace s.
Proof.
  unfold allWhiteSpace. induction s as [|c s IH]; simpl; [reflexivity|].
  rewrite forallb_app, IH. simpl. rewrite andb_true_r. apply andb_comm.
Qed.

Lemma allWhiteSpace_app s t :
  allWhiteSpace (s ++ t) = allWhiteSpace s && allWhiteSpace t.
Proof. apply forallb_app. Qed.

Lemma trimEnd_cons c s :
  trimEnd (c :: s) =
  if allWhiteSpace s then (if isWhiteSpace c then [] else [c])
  else c :: trimEnd s.
Proof.
  unfold trimEnd. simpl. rewrite trimStart_app, allWhiteSpace_rev.
  destruct (allWhiteSpace s).
  - simpl. destruct (isWhiteSpace c); reflexivity.
  - rewrite rev_app_distr. reflexivity.
Qed.

Lemma trimEnd_allWhiteSpace s : allWhiteSpace s = true -> trimEnd s = [].
Proof.
  intros H. unfold trimEnd. rewrite trimStart_allWhiteSpace; [reflexivity|].
  rewrite allWhiteSpace_rev. exact H.
Qed.

Lemma trimEnd_idem s : trimEnd (trimEnd s) = trimEnd s.
Proof. unfold trimEnd. rewrite rev_involutive, trimStart_idem. reflexivity. Qed.

Lemma trimStart_trimEnd s : trimStart (trimEnd s) = trimEnd (trimStart s).
Proof.
  induction s as [|c s IH]; [reflexivity|].
  rewrite trimEnd_cons. simpl.
  destruct (isWhiteSpace c) eqn:Hc.
  - destruct (allWhiteSpace s) eqn:Hs.
    + rewrite (trimStart_allWhiteSpace s Hs). reflexivity.
    + simpl. rewrite Hc. exact IH.
  - rewrite trimEnd_cons.
    destruct (allWhiteSpace s); simpl; rewrite Hc; reflexivity.
Qed.

Lemma trim_idem s : trim (trim s) = trim s.
Proof.
  unfold trim. rewrite trimStart_trimEnd, trimStart_idem, trimEnd_idem.
  reflexivity.
Qed.

Lemma trim_allWhiteSpace s : allWhiteSpace s = true -> trim s = [].
Proof.
  intros H. unfold trim. rewrite (trimStart_allWhiteSpace s H). reflexivity.
Qed.

Lemma trim_app_allWhiteSpace s w :
  allWhiteSpace w = true -> trim (s ++ w) = trim s.
Proof.
  intros H. unfold trim. rewrite <- !trimStart_trimEnd. f_equal.
  unfold trimEnd. rewrite rev_app_distr, trimStart_app, allWhiteSpace_rev, H.
  reflexivity.
Qed.

Lemma trim_allWhiteSpace_app w s :
  allWhiteSpace w = true -> trim (w ++ s) = trim s.
Proof. intros H. unfold trim. rewrite trimStart_app, H. reflexivity. Qed.

Lemma In_trimStart c s : In c (trimStart s) -> In c s.
Proof.
  induction s as [|d s IH]; simpl; [tauto|].
  destruct (isWhiteSpace d); simpl; tauto.
Qed.

Lemma In_trim c s : In c (trim s) -> In c s.
Proof.
  unfold trim, trimEnd. intros H.
  apply in_rev, In_trimStart, in_rev in H.
  apply In_trimStart. exact H.
Qed.

(** *** replace(/\s+/g, '') *)

Lemma removeWhiteSpace_filter s :
  removeWhiteSpace s = filter (fun c => negb (isWhiteSpace c)) s.
Proof.
  induction s as [|c s IH]; simpl; [reflexivity|].
  destruct (isWhiteSpace c); simpl; congruence.
Qed.

Lemma removeWhiteSpace_app s t :
  removeWhiteSpace (s ++ t) = removeWhiteSpace s ++ removeWhiteSpace t.
Proof. rewrite !removeWhiteSpace_filter. apply filter_app. Qed.

Lemma removeWhiteSpace_rev s :
  removeWhiteSpace (rev s) = rev (removeWhiteSpace s).
Proof.
  induction s as [|c s IH]; simpl; [reflexivity|].
  rewrite removeWhiteSpace_app, IH. simpl.
  destruct (isWhiteSpace c); simpl; [apply app_nil_r | reflexivity].
Qed.

Lemma removeWhiteSpace_trimStart s :
  removeWhiteSpace (trimStart s) = removeWhiteSpace s.
Proof.
  induction s as [|c s IH]; simpl; [reflexivity|].
  destruct (isWhiteSpace c) eqn:Hc; [exact IH | simpl; rewrite Hc; reflexivity].
Qed.

Lemma removeWhiteSpace_trim s : removeWhiteSpace (trim s) = removeWhiteSpace s.
Proof.
  unfold trim, trimEnd.
  rewrite removeWhiteSpace_rev, removeWhiteSpace_trimStart,
    removeWhiteSpace_rev, rev_involutive.
  apply removeWhiteSpace_trimStart.
Qed.

Lemma removeWhiteSpace_nil s :
  removeWhiteSpace s = [] <-> allWhiteSpace s = true.
Proof.
  induction s as [|c s IH]; simpl; [tauto|].
  destruct (isWhiteSpace c); simpl; [exact IH|]. split; discriminate.
Qed.

Lemma trim_nil s : trim s = [] <-> allWhiteSpace s = true.
Proof.
  split; [|apply trim_allWhiteSpace].
  intros H. apply removeWhiteSpace_nil.
  rewrite <- removeWhiteSpace_trim, H. reflexivity.
Qed.

End StringFacts.

(** *** split, join and array access *)

Section SplitFacts.

Variable sep : codeunit -> bool.
Implicit Types (s pre post : jsstring) (c d : codeunit).

Lemma consFirst_length c segs :
  (1 <= List.length (consFirst c segs))%nat.
Proof. destruct segs; simpl; lia. Qed.

Lemma split_length s : (1 <= List.length (split sep s))%nat.
Proof.
  destruct s as [|c s]; simpl; [lia|].
  destruct (sep c); [simpl; lia | apply consFirst_length].
Qed.

Lemma split_cons_shape s : exists seg segs, split sep s = seg :: segs.
Proof.
  pose proof (split_length s) as H.
  destruct (split sep s) as [|seg segs]; [simpl in H; lia | eauto].
Qed.

(** A string without separator is one segment. *)
Lemma split_none s : existsb sep s = false -> split sep s = [s].
Proof.
  induction s as [|c s IH]; simpl; [reflexivity|].
  intros H. apply orb_false_iff in H as [Hc Hs].
  rewrite Hc, (IH Hs). reflexivity.
Qed.

(** The first segment ends at the first separator. *)
Lemma split_first pre d post :
  existsb sep pre = false -> sep d = true ->
  split sep (pre ++ d :: post) = pre :: split sep post.
Proof.
  intros Hpre Hd. induction pre as [|c pre IH]; simpl.
  - rewrite Hd. reflexivity.
  - simpl in Hpre. apply orb_false_iff in Hpre as [Hc Hpre].
    rewrite Hc, (IH Hpre). reflexivity.
Qed.

(** There are two segments or more exactly when a separator occurs. *)
Lemma split_two s :
  (2 <=? List.length (split sep s))%nat = existsb sep s.
Proof.
  induction s as [|c s IH]; simpl; [reflexivity|].
  destruct (sep c); simpl.
  - pose proof (split_length s) as H.
    destruct (split sep s); [simpl in H; lia | reflexivity].
  - rewrite <- IH. destruct (split sep s) as [|seg [|seg' segs]]; reflexivity.
Qed.

(** Every string decomposes at its first separator, if it has one. *)
Lemma first_separator s :
  existsb sep s = true ->
  exists pre d post,
    s = pre ++ d :: post /\ existsb sep pre = false /\ sep d = true.
Proof.
  induction s as [|c s IH]; simpl; [discriminate|].
  destruct (sep c) eqn:Hc; simpl.
  - intros _. exists [], c, s. auto.
  - intros H. destruct (IH H) as (pre & d & post & -> & Hpre & Hd).
    exists (c :: pre), d, post. simpl. rewrite Hc. auto.
Qed.

Lemma In_split c seg s : In seg (split sep s) -> In c seg -> In c s.
Proof.
  revert seg; induction s as [|x s IH]; simpl; intros seg Hseg Hc.
  - destruct Hseg as [<-|[]]. exact Hc.
  - destruct (sep x).
    + destruct Hseg as [<-|Hseg]; [destruct Hc|]. right. eauto.
    + destruct (split sep s) as [|seg0 segs]; simpl in Hseg.
      * destruct Hseg as [<-|[]]. destruct Hc as [->|[]]. now left.
      * destruct Hseg as [<-|Hseg].
        -- destruct Hc as [->|Hc]; [now left|]. right. apply (IH seg0); simpl; auto.
        -- right. apply (IH seg); simpl; auto.
Qed.

End SplitFacts.

(** Joining the segments with the separator gives the string back. *)
Lemma join_split d s :
  join [d] (split (fun c => c =? d) s) = s.
Proof.
  induction s as [|c s IH]; simpl; [reflexivity|].
  destruct (c =? d) eqn:Hc.
  - apply N.eqb_eq in Hc. subst c.
    destruct (split_cons_shape (fun c => c =? d) s) as (seg & segs & E).
    rewrite E in *. simpl. simpl in IH. rewrite IH. reflexivity.
  - destruct (split_cons_shape (fun c => c =? d) s) as (seg & segs & E).
    rewrite E in *. simpl. destruct segs; simpl in *; rewrite <- IH; reflexivity.
Qed.

Lemma includes_existsb d s : includes d s = existsb (fun c => c =? d) s.
Proof.
  unfold includes. induction s as [|c s IH]; simpl; [reflexivity|].
  rewrite IH, (N.eqb_sym d c). reflexivity.
Qed.

Lemma existsb_false_In (p : codeunit -> bool) s c :
  existsb p s = false -> In c s -> p c = false.
Proof.
  intros H Hc. destruct (p c) eqn:E; [|reflexivity].
  rewrite <- H. symmetry. apply existsb_exists. eauto.
Qed.

Lemma existsb_false_incl (p : codeunit -> bool) (s t : jsstring) :
  (forall c, In c t -> In c s) -> existsb p s = false -> existsb p t = false.
Proof.
  intros Hin Hs. destruct (existsb p t) eqn:E; [|reflexivity].
  apply existsb_exists in E as (c & Hc & Hp).
  rewrite (existsb_false_In p s c Hs (Hin c Hc)) in Hp. discriminate.
Qed.

(** *** The result monad *)

Lemma mapM_total {A B : Type} (f : A -> result B) (g : A -> B) xs :
  (forall x, f x = Ok (g x)) -> mapM f xs = Ok (List.map g xs).
Proof.
  intros H. induction xs as [|x xs IH]; simpl; [reflexivity|].
  rewrite H, IH. reflexivity.
Qed.

(** *** map and filter of arrays *)



(** ** Facts about the per-line rules *)

Lemma isEquals_includes s : existsb isEquals s = includes EQUALS s.
Proof. symmetry. apply includes_existsb. Qed.

Lemma isColon_includes s : existsb isColon s = includes COLON s.
Proof. symmetry. apply includes_existsb. Qed.

Lemma isColonOrTab_includes s :
  existsb isColonOrTab s = includes COLON s || includes TAB s.
Proof.
  rewrite !includes_existsb. unfold isColonOrTab.
  induction s as [|c s IH]; simpl; [reflexivity|].
  rewrite IH.
  destruct (c =? COLON), (c =? TAB), (existsb (fun c => c =? COLON) s),
    (existsb (fun c => c =? TAB) s); reflexivity.
Qed.

(** Rule 1: the line is cut at its first equals sign. *)
Lemma parseLine_equals pre post :
  includes EQUALS pre = false ->
  parseLine (pre ++ EQUALS :: post) =
  Ok {| name := trim pre; table := trim post |}.
Proof.
  intros Hpre. rewrite <- isEquals_includes in Hpre.
  unfold parseLine. rewrite split_two.
  rewrite (split_first isEquals pre EQUALS post Hpre eq_refl).
  rewrite existsb_app. simpl. rewrite orb_true_r.
  unfold slice1, isEquals. simpl. rewrite (join_split EQUALS post).
  reflexivity.
Qed.

Lemma parseDocxLine_equals pre post :
  includes EQUALS pre = false ->
  parseDocxLine (pre ++ EQUALS :: post) =
  Ok {| name := trim pre; table := trim post |}.
Proof.
  intros Hpre. rewrite <- isEquals_includes in Hpre.
  unfold parseDocxLine. rewrite split_two.
  rewrite (split_first isEquals pre EQUALS post Hpre eq_refl).
  rewrite existsb_app. simpl. rewrite orb_true_r.
  unfold slice1, isEquals. simpl. rewrite (join_split EQUALS post).
  reflexivity.
Qed.

(** Without an equals sign the DOCX utility takes the whole line. *)
Lemma parseDocxLine_plain line :
  includes EQUALS line = false ->
  parseDocxLine line = Ok {| name := trim line; table := [] |}.
Proof.
  intros H. rewrite <- isEquals_includes in H.
  unfold parseDocxLine. rewrite split_two, H. reflexivity.
Qed.

(** Rule 2: the first two segments between colons and tabs. *)
Lemma parseLine_alt pre d rest seg segs :
  includes EQUALS (pre ++ d :: rest) = false ->
  existsb isColonOrTab pre = false ->
  isColonOrTab d = true ->
  split isColonOrTab rest = seg :: segs ->
  parseLine (pre ++ d :: rest) = Ok {| name := trim pre; table := trim seg |}.
Proof.
  intros Heq Hpre Hd Hrest. rewrite <- isEquals_includes in Heq.
  unfold parseLine. rewrite split_two, Heq.
  rewrite split_two, (split_first isColonOrTab pre d rest Hpre Hd), Hrest.
  rewrite existsb_app. simpl. rewrite Hd, orb_true_r.
  reflexivity.
Qed.

(** Rule 3: no delimiter at all. *)
Lemma parseLine_plain line :
  includes EQUALS line = false ->
  existsb isColonOrTab line = false ->
  parseLine line = Ok {| name := trim line; table := [] |}.
Proof.
  intros Heq Halt. rewrite <- isEquals_includes in Heq.
  unfold parseLine. rewrite !split_two, Heq, Halt. reflexivity.
Qed.

(** No array access of the callback is out of range. *)
Lemma parseLine_total line : exists it, parseLine line = Ok it.
Proof.
  destruct (includes EQUALS line) eqn:Heq.
  - rewrite <- isEquals_includes in Heq.
    destruct (first_separator _ _ Heq) as (pre & d & post & -> & Hpre & Hd).
    apply N.eqb_eq in Hd. subst d. rewrite isEquals_includes in Hpre.
    rewrite (parseLine_equals _ _ Hpre). eauto.
  - destruct (existsb isColonOrTab line) eqn:Halt.
    + destruct (first_separator _ _ Halt) as (pre & d & post & -> & Hpre & Hd).
      destruct (split_cons_shape isColonOrTab post) as (seg & segs & E).
      rewrite (parseLine_alt _ _ _ _ _ Heq Hpre Hd E). eauto.
    + rewrite (parseLine_plain _ Heq Halt). eauto.
Qed.

Lemma parseDocxLine_total line : exists it, parseDocxLine line = Ok it.
Proof.
  destruct (includes EQUALS line) eqn:Heq.
  - rewrite <- isEquals_includes in Heq.
    destruct (first_separator _ _ Heq) as (pre & d & post & -> & Hpre & Hd).
    apply N.eqb_eq in Hd. subst d. rewrite isEquals_includes in Hpre.
    rewrite (parseDocxLine_equals _ _ Hpre). eauto.
  - rewrite (parseDocxLine_plain _ Heq). eauto.
Qed.

Lemma parseLine_lineItem line : parseLine line = Ok (lineItem line).
Proof.
  unfold lineItem. destruct (parseLine_total line) as (it & ->). reflexivity.
Qed.

Lemma mapM_parseLine lines :
  mapM parseLine lines = Ok (List.map lineItem lines).
Proof. apply mapM_total, parseLine_lineItem. Qed.

(** Both fields of a line's record are trimmed pieces of the line. *)
Lemma parseLine_pieces line :
  exists x y,
    parseLine line = Ok {| name := trim x; table := trim y |} /\
    (forall c, In c x -> In c line) /\ (forall c, In c y -> In c line).
Proof.
  destruct (includes EQUALS line) eqn:Heq.
  - rewrite <- isEquals_includes in Heq.
    destruct (first_separator _ _ Heq) as (pre & d & post & -> & Hpre & Hd).
    apply N.eqb_eq in Hd. subst d. rewrite isEquals_includes in Hpre.
    exists pre, post. split; [apply parseLine_equals, Hpre|].
    split; intros c Hc; apply in_or_app; simpl; auto.
  - destruct (existsb isColonOrTab line) eqn:Halt.
    + destruct (first_separator _ _ Halt) as (pre & d & post & -> & Hpre & Hd).
      destruct (split_cons_shape isColonOrTab post) as (seg & segs & E).
      exists pre, seg. split; [apply (parseLine_alt _ _ _ _ _ Heq Hpre Hd E)|].
      split; intros c Hc; apply in_or_app; simpl; auto.
      right. right. apply (In_split isColonOrTab c seg post); [|exact Hc].
      rewrite E. now left.
    + exists line, []. split; [apply (parseLine_plain _ Heq Halt)|].
      split; [auto | intros c []].
Qed.

Lemma notBlank_allWhiteSpace line : notBlank line = negb (allWhiteSpace line).
Proof.
  unfold notBlank. rewrite eqb_nil. f_equal.
  destruct (allWhiteSpace line) eqn:H.
  - apply isEmpty_true, trim_nil, H.
  - apply isEmpty_false. intros E. apply trim_nil in E. congruence.
Qed.

(** ** Facts about the spreadsheet rows *)

(** A cell that has an equals sign is cut at the first one; the table is
    what lies between it and the second one. *)
Lemma split_first_two (sep : codeunit -> bool) s :
  existsb sep s = true ->
  exists pre d seg segs post,
    s = pre ++ d :: post /\ existsb sep pre = false /\ sep d = true /\
    split sep post = seg :: segs /\ split sep s = pre :: seg :: segs.
Proof.
  intros H. destruct (first_separator _ _ H) as (pre & d & post & -> & Hpre & Hd).
  destruct (split_cons_shape sep post) as (seg & segs & E).
  exists pre, d, seg, segs, post. repeat split; auto.
  rewrite (split_first sep pre d post Hpre Hd), E. reflexivity.
Qed.

Lemma parseRow_pieces r :
  exists x y, parseRow r = Ok {| name := trim x; table := trim y |}.
Proof.
  unfold parseRow.
  destruct (isEmpty (trim (cellText r 1))); simpl.
  - destruct (includes EQUALS (trim (cellText r 0))) eqn:Heq.
    + rewrite <- isEquals_includes in Heq.
      destruct (split_first_two _ _ Heq) as (pre & d & seg & segs & post & _ & _ & _ & _ & ->).
      simpl. eauto.
    + destruct (includes COLON (trim (cellText r 0))) eqn:Hc.
      * rewrite <- isColon_includes in Hc.
        destruct (split_first_two _ _ Hc) as (pre & d & seg & segs & post & _ & _ & _ & _ & ->).
        simpl. eauto.
      * eauto.
  - eauto.
Qed.

Lemma parseRow_rowItem r : parseRow r = Ok (rowItem r).
Proof.
  unfold rowItem. destruct (parseRow_pieces r) as (x & y & ->). reflexivity.
Qed.

Lemma extractNamesFromRows_eq data :
  extractNamesFromRows data =
  Ok (filter (fun it => negb (isEmpty (name it))) (List.map rowItem data)).
Proof.
  unfold extractNamesFromRows.
  rewrite (mapM_total parseRow rowItem data parseRow_rowItem). reflexivity.
Qed.

(** ** Facts about the whole parser *)

Section ParserFacts.

Variable toLowerCase : jsstring -> jsstring.

Lemma parseRawLines_eq raw :
  parseRawLines toLowerCase raw =
  Ok (filter (keepItem toLowerCase) (List.map lineItem (filter notBlank raw))).
Proof. unfold parseRawLines. rewrite mapM_parseLine. reflexivity. Qed.

Lemma keepItem_true it :
  keepItem toLowerCase it = true <->
  norm toLowerCase it <> lit "liste" /\ norm toLowerCase it <> [].
Proof.
  unfold keepItem. rewrite andb_true_iff, !negb_true_iff.
  split; intros [H1 H2]; split.
  - intros E. apply eqb_eq in E. congruence.
  - intros E. apply eqb_eq in E. congruence.
  - destruct (JS.eqb (norm toLowerCase it) (lit "liste")) eqn:E; [|reflexivity].
    apply eqb_eq in E. contradiction.
  - destruct (JS.eqb (norm toLowerCase it) []) eqn:E; [|reflexivity].
    apply eqb_eq in E. contradiction.
Qed.

Lemma keepItem_false it :
  keepItem toLowerCase it = false <->
  norm toLowerCase it = lit "liste" \/ norm toLowerCase it = [].
Proof.
  unfold keepItem. rewrite andb_false_iff, !negb_false_iff, !eqb_eq. tauto.
Qed.

End ParserFacts.

(** The repository's own test passes on the embedding. *)
Example testCases_parse :
  parseNamesFromText toLowerCaseLatin1 testCases =
  Ok [ mkItem (lit "John Doe") (lit "Table 1");
       mkItem (lit "Jane Smith") (lit "Table 5");
       mkItem (lit "Bob Martin") (lit "Table 10");
       mkItem (lit "Alice Wonderland") (lit "Table 2");
       mkItem (lit "Just a Name") [];
       mkItem (lit "Name") (lit "Table = Something") ].
Proof. vm_compute. reflexivity. Qed.

(** Header lines are dropped whatever their case and spacing, a longer
    word that starts with liste is not, and a line with an empty name is. *)
Example liste_headers_dropped :
  parseNamesFromText toLowerCaseLatin1
    (lit "L i s t e" ++ [LF] ++ lit "LISTE = 4" ++ [LF] ++
     lit "Listeria" ++ [LF] ++ lit " = 7") =
  Ok [mkItem (lit "Listeria") []].
Proof. vm_compute. reflexivity. Qed.

(** Two equal lines, here with a carriage return before the line feed,
    give two equal records. *)
Example same_line_twice :
  parseNamesFromText toLowerCaseLatin1
    (lit "Ann = 1" ++ [CR; LF] ++ lit "Ann = 1") =
  Ok [mkItem (lit "Ann") (lit "1"); mkItem (lit "Ann") (lit "1")].
Proof. vm_compute. reflexivity. Qed.

(** ** The claims of the specification *)

(** C1: a line with an equals sign is cut at the first one; the name is
    the text before it, trimmed, and the table is all the text after it,
    later equals signs included, trimmed.  The DOCX utility has the same
    rule. *)
Theorem C1_equals_rule line :
  includes EQUALS line = true ->
  exists pre post,
    line = pre ++ EQUALS :: post /\
    includes EQUALS pre = false /\
    parseLine line = Ok {| name := trim pre; table := trim post |} /\
    parseDocxLine line = Ok {| name := trim pre; table := trim post |}.
Proof.
  intros H. rewrite <- isEquals_includes in H.
  destruct (first_separator _ _ H) as (pre & d & post & -> & Hpre & Hd).
  apply N.eqb_eq in Hd. subst d. rewrite isEquals_includes in Hpre.
  exists pre, post. repeat split; auto.
  - apply parseLine_equals, Hpre.
  - apply parseDocxLine_equals, Hpre.
Qed.

Lemma C1_equals_rule_witness :
  includes EQUALS (lit "Name = Table = Something") = true /\
  exists pre post,
    lit "Name = Table = Something" = pre ++ EQUALS :: post /\
    includes EQUALS pre = false /\
    parseLine (lit "Name = Table = Something") =
      Ok {| name := trim pre; table := trim post |} /\
    parseDocxLine (lit "Name = Table = Something") =
      Ok {| name := trim pre; table := trim post |}.
Proof.
  split; [reflexivity|].
  apply (C1_equals_rule (lit "Name = Table = Something")). reflexivity.
Defined.

(** C2: a line without equals sign that has a colon or a tab is cut at the
    first of them; the name is the text before it, trimmed, and the table
    is the text from there to the next colon or tab, or to the end of the
    line, trimmed.  What follows a second colon or tab is in neither
    field. *)
Theorem C2_colon_tab_rule line :
  includes EQUALS line = false ->
  existsb isColonOrTab line = true ->
  exists pre d rest,
    line = pre ++ d :: rest /\
    isColonOrTab d = true /\
    existsb isColonOrTab pre = false /\
    ((existsb isColonOrTab rest = false /\
      parseLine line = Ok {| name := trim pre; table := trim rest |}) \/
     (exists seg d' tail,
        rest = seg ++ d' :: tail /\
        isColonOrTab d' = true /\
        existsb isColonOrTab seg = false /\
        parseLine line = Ok {| name := trim pre; table := trim seg |})).
Proof.
  intros Heq Halt.
  destruct (first_separator _ _ Halt) as (pre & d & rest & -> & Hpre & Hd).
  exists pre, d, rest. repeat split; auto.
  destruct (existsb isColonOrTab rest) eqn:Hrest.
  - right.
    destruct (first_separator _ _ Hrest) as (seg & d' & tail & -> & Hseg & Hd').
    exists seg, d', tail. repeat split; auto.
    apply (parseLine_alt pre d _ seg (split isColonOrTab tail)); auto.
    apply split_first; assumption.
  - left. split; [reflexivity|].
    apply (parseLine_alt pre d rest rest []); auto.
    apply split_none, Hrest.
Qed.

Lemma C2_colon_tab_rule_witness :
  includes EQUALS colonLine = false /\
  existsb isColonOrTab colonLine = true /\
  exists pre d rest,
    colonLine = pre ++ d :: rest /\
    isColonOrTab d = true /\
    existsb isColonOrTab pre = false /\
    ((existsb isColonOrTab rest = false /\
      parseLine colonLine = Ok {| name := trim pre; table := trim rest |}) \/
     (exists seg d' tail,
        rest = seg ++ d' :: tail /\
        isColonOrTab d' = true /\
        existsb isColonOrTab seg = false /\
        parseLine colonLine = Ok {| name := trim pre; table := trim seg |})).
Proof.
  split; [reflexivity|]. split; [reflexivity|].
  apply (C2_colon_tab_rule colonLine); reflexivity.
Defined.

Example colonLine_parse :
  parseLine colonLine =
  Ok {| name := lit "Bob Martin"; table := lit "Table 10" |}.
Proof. vm_compute. reflexivity. Qed.

Lemma lineItem_trimmed line :
  trim (name (lineItem line)) = name (lineItem line) /\
  trim (table (lineItem line)) = table (lineItem line).
Proof.
  destruct (parseLine_pieces line) as (x & y & E & _).
  unfold lineItem. rewrite E. simpl. split; apply trim_idem.
Qed.

Lemma rowItem_trimmed r :
  trim (name (rowItem r)) = name (rowItem r) /\
  trim (table (rowItem r)) = table (rowItem r).
Proof.
  destruct (parseRow_pieces r) as (x & y & E).
  unfold rowItem. rewrite E. simpl. split; apply trim_idem.
Qed.

(** *** Lines hold no line feed *)

Lemma In_consFirst c segs line :
  In line (consFirst c segs) ->
  (exists seg, line = c :: seg /\ (In seg segs \/ seg = [])) \/ In line segs.
Proof.
  destruct segs as [|seg0 segs]; simpl.
  - intros [<-|[]]. left. exists []. auto.
  - intros [<-|H]; [left; exists seg0; auto | right; auto].
Qed.

Lemma splitLines_no_LF_fuel n :
  forall text, (List.length text <= n)%nat ->
  forall line, In line (splitLines text) -> includes LF line = false.
Proof.
  induction n as [|n IH]; intros text Hlen line Hin.
  - destruct text; [|simpl in Hlen; lia].
    destruct Hin as [<-|[]]. reflexivity.
  - destruct text as [|c text]; [destruct Hin as [<-|[]]; reflexivity|].
    simpl in Hlen. simpl in Hin.
    assert (Hfirst : (c =? LF) = false ->
                     In line (consFirst c (splitLines text)) ->
                     includes LF line = false).
    { intros Hc H. apply In_consFirst in H as [(seg & -> & Hseg)|H].
      - change (includes LF (c :: seg)) with ((LF =? c) || includes LF seg).
        rewrite (N.eqb_sym LF c), Hc.
        destruct Hseg as [Hseg| ->]; [|reflexivity].
        apply (IH text); [lia | exact Hseg].
      - apply (IH text); [lia | exact H]. }
    destruct (c =? LF) eqn:Hc.
    + destruct Hin as [<-|Hin]; [reflexivity|]. apply (IH text); [lia | exact Hin].
    + destruct text as [|d text']; [apply Hfirst; auto|].
      destruct ((c =? CR) && (d =? LF)).
      * destruct Hin as [<-|Hin]; [reflexivity|].
        apply (IH text'); [simpl in Hlen; lia | exact Hin].
      * apply Hfirst; auto.
Qed.

Lemma splitLines_no_LF text line :
  In line (splitLines text) -> includes LF line = false.
Proof. apply (splitLines_no_LF_fuel (List.length text)). lia. Qed.

(** A text without line feed is one line. *)
Lemma splitLines_single text :
  includes LF text = false -> splitLines text = [text].
Proof.
  rewrite includes_existsb.
  induction text as [|c text IH]; simpl; [reflexivity|].
  intros H. apply orb_false_iff in H as [Hc Ht]. rewrite Hc.
  destruct text as [|d text']; [reflexivity|].
  assert (Hd : (d =? LF) = false).
  { simpl in Ht. apply orb_false_iff in Ht. tauto. }
  rewrite Hd, andb_false_r, (IH Ht). reflexivity.
Qed.

Lemma includes_false_incl d (s t : jsstring) :
  (forall c, In c t -> In c s) -> includes d s = false -> includes d t = false.
Proof. rewrite !includes_existsb. apply existsb_false_incl. Qed.

Lemma includes_app d (s t : jsstring) :
  includes d (s ++ t) = includes d s || includes d t.
Proof. apply existsb_app. Qed.

Lemma lineItem_no_LF line :
  includes LF line = false ->
  includes LF (name (lineItem line)) = false /\
  includes LF (table (lineItem line)) = false.
Proof.
  intros H. destruct (parseLine_pieces line) as (x & y & E & Hx & Hy).
  unfold lineItem. rewrite E. simpl. split.
  - apply (includes_false_incl LF line); [|exact H].
    intros c Hc. apply Hx, In_trim, Hc.
  - apply (includes_false_incl LF line); [|exact H].
    intros c Hc. apply Hy, In_trim, Hc.
Qed.

Section Claims.

Variable toLowerCase : jsstring -> jsstring.
Hypothesis toLowerCase_empty : toLowerCase [] = [].

Hypothesis toLowerCase_latin1 :
  forall s, isLatin1 s = true -> toLowerCase s = toLowerCaseLatin1 s.

(** C4: of the records produced for the lines, the final filter removes
    exactly those whose name, put in lower case by [toLowerCase] and then
    with every white space code unit removed, is the word liste or is
    empty.  For a name of code units below 256, where [toLowerCase] is the
    mapping of the letters A-Z and of the Latin-1 capitals, that is the
    name with each code unit in lower case and the white space taken out.
    A name of which liste is only a part has another normal form and
    stays. *)
Theorem C4_liste_filter text :
  exists produced out,
    mapM parseLine (filter notBlank (splitLines text)) = Ok produced /\
    parseNamesFromText toLowerCase text = Ok out /\
    out = filter (keepItem toLowerCase) produced /\
    (forall it,
        keepItem toLowerCase it = false <->
        removeWhiteSpace (toLowerCase (name it)) = lit "liste" \/
        removeWhiteSpace (toLowerCase (name it)) = []) /\
    (forall it,
        In it out <->
        In it produced /\
        removeWhiteSpace (toLowerCase (name it)) <> lit "liste" /\
        removeWhiteSpace (toLowerCase (name it)) <> []) /\
    (forall it,
        isLatin1 (name it) = true ->
        (In it out <->
         In it produced /\
         removeWhiteSpace (List.map lowerLatin1 (name it)) <> lit "liste" /\
         removeWhiteSpace (List.map lowerLatin1 (name it)) <> [])) /\
    (forall it pre post,
        In it produced ->
        removeWhiteSpace (toLowerCase (name it)) = pre ++ lit "liste" ++ post ->
        pre ++ post <> [] ->
        In it out).
Proof.
  exists (List.map lineItem (filter notBlank (splitLines text))).
  exists (filter (keepItem toLowerCase) (List.map lineItem (filter notBlank (splitLines text)))).
  assert (Hmem : forall it,
             In it (filter (keepItem toLowerCase)
                      (List.map lineItem (filter notBlank (splitLines text)))) <->
             In it (List.map lineItem (filter notBlank (splitLines text))) /\
             removeWhiteSpace (toLowerCase (name it)) <> lit "liste" /\
             removeWhiteSpace (toLowerCase (name it)) <> []).
  { intros it. rewrite filter_In, keepItem_true. unfold norm. tauto. }
  split; [apply mapM_parseLine|].
  split; [apply parseRawLines_eq|].
  split; [reflexivity|].
  split; [intros it; apply keepItem_false|].
  split; [exact Hmem|].
  split.
  - intros it Hlatin. rewrite Hmem, (toLowerCase_latin1 _ Hlatin).
    unfold toLowerCaseLatin1. tauto.
  - intros it pre post Hin Hnorm Hmore. apply Hmem. split; [exact Hin|].
    rewrite Hnorm. split; intros E.
    + apply (f_equal (@List.length codeunit)) in E.
      rewrite !length_app in E.
      assert (Hlen : (List.length (pre ++ post) = 0)%nat)
        by (rewrite length_app; lia).
      apply length_zero_iff_nil in Hlen. contradiction.
    + apply app_eq_nil in E as [_ E]. discriminate E.
Qed.

(** C5: a line with no equals sign, colon or tab gives the record whose
    name is the trimmed line and whose table is empty; a line of the split
    input that is empty or all white space gives no record: the output is
    the same without it. *)
Theorem C5_plain_and_blank_lines line before after :
  (includes EQUALS line = false ->
   includes COLON line = false ->
   includes TAB line = false ->
   parseLine line = Ok {| name := trim line; table := [] |}) /\
  (allWhiteSpace line = true ->
   parseRawLines toLowerCase [line] = Ok [] /\
   parseRawLines toLowerCase (before ++ line :: after) = parseRawLines toLowerCase (before ++ after)) /\
  (forall text, parseNamesFromText toLowerCase text = parseRawLines toLowerCase (splitLines text)).
Proof.
  split; [|split].
  - intros Heq Hc Ht. apply parseLine_plain; [exact Heq|].
    rewrite isColonOrTab_includes, Hc, Ht. reflexivity.
  - intros Hws. rewrite !parseRawLines_eq.
    rewrite !filter_app. simpl.
    rewrite notBlank_allWhiteSpace, Hws. simpl. auto.
  - reflexivity.
Qed.


(** C7: every record of either output has a name that is not empty, and
    that is already trimmed. *)
Theorem C7_names_not_empty :
  (forall text out it,
      parseNamesFromText toLowerCase text = Ok out -> In it out ->
      name it <> [] /\ trim (name it) = name it) /\
  (forall data out it,
      extractNamesFromRows data = Ok out -> In it out ->
      name it <> [] /\ trim (name it) = name it).
Proof.
  split.
  - intros text out it. unfold parseNamesFromText.
    rewrite parseRawLines_eq. intros [= <-] Hin.
    apply filter_In in Hin as [Hin Hkeep].
    apply in_map_iff in Hin as (line & <- & _).
    split; [|apply lineItem_trimmed].
    apply keepItem_true in Hkeep as [_ Hnorm].
    intros E. apply Hnorm. unfold norm.
    rewrite E, toLowerCase_empty. reflexivity.
  - intros data out it. rewrite extractNamesFromRows_eq. intros [= <-] Hin.
    apply filter_In in Hin as [Hin Hname].
    apply in_map_iff in Hin as (r & <- & _).
    split; [|apply rowItem_trimmed].
    apply negb_true_iff, isEmpty_false in Hname. exact Hname.
Qed.

(** C8: the text parser throws on no input: it returns an array of
    records for every text, the empty one for the empty text, and each
    line resolves to a record, which the filter keeps or drops. *)
Theorem C8_never_throws text :
  (exists out, parseNamesFromText toLowerCase text = Ok out) /\
  parseNamesFromText toLowerCase [] = Ok [] /\
  (forall line, exists it,
      parseLine line = Ok it /\
      (parseRawLines toLowerCase [line] = Ok [it] \/ parseRawLines toLowerCase [line] = Ok [])).
Proof.
  split; [|split].
  - eexists. apply parseRawLines_eq.
  - reflexivity.
  - intros line. exists (lineItem line). split; [apply parseLine_lineItem|].
    rewrite parseRawLines_eq. simpl.
    destruct (notBlank line); simpl; auto.
    destruct (keepItem toLowerCase (lineItem line)); auto.
Qed.

(** C9: a record of the output whose fields hold no equals sign, colon or
    tab is read back from the line made of its name, an equals sign between
    two spaces, and its table: parsing that line gives the record alone. *)
Theorem C9_round_trip text out it :
  parseNamesFromText toLowerCase text = Ok out ->
  In it out ->
  includes EQUALS (name it) = false ->
  includes COLON (name it) = false ->
  includes TAB (name it) = false ->
  includes EQUALS (table it) = false ->
  includes COLON (table it) = false ->
  includes TAB (table it) = false ->
  parseNamesFromText toLowerCase (name it ++ lit " = " ++ table it) = Ok [it].
Proof.
  intros Hout Hin Hneq _ _ _ _ _.
  unfold parseNamesFromText in Hout. rewrite parseRawLines_eq in Hout.
  injection Hout as <-.
  apply filter_In in Hin as [Hin Hkeep].
  apply in_map_iff in Hin as (line & <- & Hline).
  apply filter_In in Hline as [Hline _].
  apply splitLines_no_LF in Hline.
  destruct (lineItem_no_LF line Hline) as [HnLF HtLF].
  destruct (lineItem_trimmed line) as [Hn Ht].
  assert (Hne : allWhiteSpace (name (lineItem line)) = false).
  { destruct (allWhiteSpace (name (lineItem line))) eqn:E; [|reflexivity].
    apply keepItem_true in Hkeep as [_ Hnorm]. exfalso. apply Hnorm.
    apply trim_nil in E. rewrite Hn in E. unfold norm.
    rewrite E, toLowerCase_empty. reflexivity. }
  destruct (lineItem line) as [n t] eqn:Eit.
  cbn [name table] in *.
  replace (n ++ lit " = " ++ t)
    with ((n ++ [SPACE]) ++ EQUALS :: ([SPACE] ++ t))
    by (rewrite <- app_assoc; reflexivity).
  unfold parseNamesFromText. rewrite splitLines_single.
  2:{ change (EQUALS :: [SPACE] ++ t) with ([EQUALS; SPACE] ++ t).
      rewrite !includes_app, HnLF, HtLF. reflexivity. }
  rewrite parseRawLines_eq. cbn [filter List.map].
  rewrite notBlank_allWhiteSpace, !allWhiteSpace_app, Hne.
  cbn [andb negb filter List.map].
  unfold lineItem. rewrite parseLine_equals.
  2:{ rewrite includes_app, Hneq. reflexivity. }
  rewrite (trim_app_allWhiteSpace n [SPACE] eq_refl), Hn.
  rewrite (trim_allWhiteSpace_app [SPACE] t eq_refl), Ht.
  rewrite Hkeep. reflexivity.
Qed.

End Claims.

Lemma C4_liste_filter_witness :
  (forall s, isLatin1 s = true -> toLowerCaseLatin1 s = toLowerCaseLatin1 s) /\
  exists out,
    parseNamesFromText toLowerCaseLatin1 listeText = Ok out /\
    ~ In (mkItem (lit "L i s t e") []) out /\
    ~ In (mkItem (lit "LISTE") (lit "4")) out /\
    ~ In (mkItem (lit "Liste") []) out /\
    In (mkItem (lit "Listeria") []) out.
Proof.
  split; [intros s _; reflexivity|].
  destruct (C4_liste_filter toLowerCaseLatin1 (fun s _ => eq_refl) listeText)
    as (produced & out & Hproduced & Hout & _ & _ & _ & Hlatin & _).
  exists out. split; [exact Hout|].
  vm_compute in Hproduced. injection Hproduced as <-.
  split; [|split; [|split]].
  - intros H. apply (Hlatin (mkItem (lit "L i s t e") []) eq_refl) in H.
    destruct H as (_ & H & _). apply H. reflexivity.
  - intros H. apply (Hlatin (mkItem (lit "LISTE") (lit "4")) eq_refl) in H.
    destruct H as (_ & H & _). apply H. reflexivity.
  - intros H. apply (Hlatin (mkItem (lit "Liste") []) eq_refl) in H.
    destruct H as (_ & H & _). apply H. reflexivity.
  - apply (Hlatin (mkItem (lit "Listeria") []) eq_refl).
    split; [|split; discriminate].
    right. right. right. left. reflexivity.
Defined.

Lemma C5_plain_and_blank_lines_witness :
  (includes EQUALS plainLine = false /\
   includes COLON plainLine = false /\
   includes TAB plainLine = false /\
   parseLine plainLine = Ok {| name := trim plainLine; table := [] |}) /\
  (allWhiteSpace blankLine = true /\
   parseRawLines toLowerCaseLatin1 [blankLine] = Ok [] /\
   parseRawLines toLowerCaseLatin1 ([plainLine] ++ blankLine :: [colonLine]) =
   parseRawLines toLowerCaseLatin1 ([plainLine] ++ [colonLine])).
Proof.
  split.
  - repeat (split; [reflexivity|]).
    apply (C5_plain_and_blank_lines toLowerCaseLatin1 plainLine [] []);
      reflexivity.
  - split; [reflexivity|].
    apply (C5_plain_and_blank_lines toLowerCaseLatin1 blankLine
             [plainLine] [colonLine]).
    reflexivity.
Defined.

Lemma C7_names_not_empty_witness :
  toLowerCaseLatin1 [] = [] /\
  name johnDoe <> [] /\ trim (name johnDoe) = name johnDoe.
Proof.
  split; [reflexivity|].
  apply (proj1 (C7_names_not_empty toLowerCaseLatin1 eq_refl)
           testCases _ johnDoe testCases_parse).
  left. reflexivity.
Defined.

Lemma C9_round_trip_witness :
  toLowerCaseLatin1 [] = [] /\
  In johnDoe
    [ johnDoe;
      mkItem (lit "Jane Smith") (lit "Table 5");
      mkItem (lit "Bob Martin") (lit "Table 10");
      mkItem (lit "Alice Wonderland") (lit "Table 2");
      mkItem (lit "Just a Name") [];
      mkItem (lit "Name") (lit "Table = Something") ] /\
  parseNamesFromText toLowerCaseLatin1 (name johnDoe ++ lit " = " ++ table johnDoe)
  = Ok [johnDoe].
Proof.
  split; [reflexivity|]. split; [left; reflexivity|].
  apply (C9_round_trip toLowerCaseLatin1 eq_refl testCases _ johnDoe
           testCases_parse);
    [left; reflexivity | reflexivity ..].
Defined.

(** C10: the DOCX utility has the equals rule only: a line without equals
    sign gives the trimmed line as name and an empty table, colons and tabs
    or not.  On such a line, cut at its first colon or tab, the text parser
    gives another record, unless that first delimiter is a tab with nothing
    but white space after it: there the two records are the same. *)
Theorem C10_docx_equals_only line :
  includes EQUALS line = false ->
  parseDocxLine line = Ok {| name := trim line; table := [] |} /\
  (forall pre d rest,
      line = pre ++ d :: rest ->
      existsb isColonOrTab pre = false ->
      isColonOrTab d = true ->
      (parseLine line = parseDocxLine line <->
       d = TAB /\ allWhiteSpace rest = true)).
Proof.
  intros Heq. split; [apply parseDocxLine_plain, Heq|].
  intros pre d rest -> Hpre Hd.
  destruct (split_cons_shape isColonOrTab rest) as (seg & segs & E).
  rewrite (parseLine_alt _ _ _ _ _ Heq Hpre Hd E).
  rewrite (parseDocxLine_plain _ Heq).
  split.
  - intros [= Hname Htable].
    apply (f_equal removeWhiteSpace) in Hname.
    rewrite !removeWhiteSpace_trim, removeWhiteSpace_app in Hname.
    rewrite <- (app_nil_r (removeWhiteSpace pre)) in Hname at 1.
    apply app_inv_head in Hname. symmetry in Hname.
    apply removeWhiteSpace_nil in Hname.
    change (allWhiteSpace (d :: rest))
      with (isWhiteSpace d && allWhiteSpace rest) in Hname.
    apply andb_true_iff in Hname as [Hws Hrest].
    split; [|exact Hrest].
    unfold isColonOrTab in Hd. apply orb_true_iff in Hd as [Hd|Hd];
      apply N.eqb_eq in Hd; [|exact Hd].
    subst d. discriminate Hws.
  - intros [-> Hrest]. f_equal. f_equal.
    + symmetry. apply trim_app_allWhiteSpace.
      change (allWhiteSpace (TAB :: rest))
        with (isWhiteSpace TAB && allWhiteSpace rest).
      rewrite Hrest. reflexivity.
    + apply trim_allWhiteSpace. apply forallb_forall. intros c Hc.
      apply (proj1 (forallb_forall isWhiteSpace rest) Hrest).
      apply (In_split isColonOrTab c seg rest); [|exact Hc].
      rewrite E. now left.
Qed.

Lemma C10_docx_equals_only_witness :
  includes EQUALS colonLine = false /\
  parseDocxLine colonLine = Ok {| name := trim colonLine; table := [] |} /\
  parseLine colonLine <> parseDocxLine colonLine.
Proof.
  split; [reflexivity|].
  destruct (C10_docx_equals_only colonLine eq_refl) as [Hdocx Hdiff].
  split; [exact Hdocx|].
  intros E.
  apply (Hdiff (lit "Bob Martin ") COLON (lit " Table 10 : door")
           eq_refl eq_refl eq_refl) in E.
  destruct E as [E _]. discriminate E.
Defined.

(** A line that ends in a tab: both parsers give the same record. *)
Lemma C10_trailing_tab_same_record :
  ~ (forall line,
        includes EQUALS line = false ->
        includes COLON line || includes TAB line = true ->
        parseLine line <> parseDocxLine line).
Proof.
  intros H. apply (H trailingTabLine); reflexivity.
Qed.

Example trailingTabLine_parse :
  parseLine trailingTabLine = Ok {| name := lit "Alice"; table := [] |} /\
  parseDocxLine trailingTabLine = Ok {| name := lit "Alice"; table := [] |} /\
  parseNamesFromText toLowerCaseLatin1 trailingTabLine =
  Ok (parseDocxNames toLowerCaseLatin1 trailingTabLine).
Proof. repeat split; vm_compute; reflexivity. Qed.

(** ** The spreadsheet rows and the equals rule *)

(** A row with no second cell whose first cell has an equals sign: the
    name is the text before the first equals sign and the table is the
    text between the first and the second one, both trimmed. *)
Lemma parseRow_equals r pre seg tail :
  trim (cellText r 1) = [] ->
  trim (cellText r 0) = pre ++ EQUALS :: seg ++ tail ->
  includes EQUALS pre = false ->
  includes EQUALS seg = false ->
  (tail = [] \/ exists tail', tail = EQUALS :: tail') ->
  parseRow r = Ok {| name := trim pre; table := trim seg |}.
Proof.
  intros H1 H0 Hpre Hseg Htail.
  rewrite <- isEquals_includes in Hpre, Hseg.
  unfold parseRow. rewrite H1, H0. simpl isEmpty. cbn [andb].
  rewrite <- isEquals_includes, existsb_app. cbn [existsb].
  change (isEquals EQUALS) with true. rewrite orb_true_r. cbn [orb].
  rewrite (split_first isEquals pre EQUALS _ Hpre eq_refl).
  destruct Htail as [-> | (tail' & ->)].
  - rewrite app_nil_r, (split_none isEquals seg Hseg). reflexivity.
  - rewrite (split_first isEquals seg EQUALS _ Hseg eq_refl). reflexivity.
Qed.

(** C3: on a row whose only cell is "Name = Table = Something" the
    spreadsheet branch gives the table "Table", where the text parser
    gives "Table = Something" for the same text. *)
Theorem C3_row_loses_text_after_second_equals :
  extractNamesFromRows [[Some equalsCell]] =
    Ok [{| name := lit "Name"; table := lit "Table" |}] /\
  extractNamesFromRows [[Some equalsCell; None]] =
    Ok [{| name := lit "Name"; table := lit "Table" |}] /\
  extractNamesFromRows [[Some equalsCell; Some []]] =
    Ok [{| name := lit "Name"; table := lit "Table" |}] /\
  parseLine equalsCell =
    Ok {| name := lit "Name"; table := lit "Table = Something" |}.
Proof. repeat split; vm_compute; reflexivity. Qed.

(** ** Further properties of the text parser *)

(** Induction that looks two code units ahead, as [splitLines] does. *)
Lemma list_ind2 {A : Type} (P : list A -> Prop) :
  P [] -> (forall c, P [c]) ->
  (forall c d s, P s -> P (d :: s) -> P (c :: d :: s)) ->
  forall s, P s.
Proof.
  intros H0 H1 H2 s.
  assert (H : P s /\ forall c, P (c :: s)); [|tauto].
  induction s as [|d s [IHs IHd]]; [auto|].
  split; [apply IHd|]. intros c. apply H2; auto.
Qed.

Lemma splitLines_cons_shape text : exists line lines, splitLines text = line :: lines.
Proof.
  destruct text as [|c [|d text]]; simpl.
  - eauto.
  - destruct (c =? LF); simpl; eauto.
  - destruct (c =? LF); [eauto|].
    destruct ((c =? CR) && (d =? LF)); [eauto|].
    destruct (if d =? LF then _ else _) as [|l ls]; simpl; eauto.
Qed.

(** The code units of a line are code units of the text. *)
Lemma In_splitLines c text :
  forall line, In line (splitLines text) -> In c line -> In c text.
Proof.
  induction text as [| x | x y text IH0 IH1] using list_ind2;
    intros line Hline Hc.
  - destruct Hline as [<-|[]]. destruct Hc.
  - simpl in Hline. destruct (x =? LF); simpl in Hline.
    + destruct Hline as [<-|[<-|[]]]; destruct Hc.
    + destruct Hline as [<-|[]]. exact Hc.
  - assert (Hfirst : In line (consFirst x (splitLines (y :: text))) ->
                     In c (x :: y :: text)).
    { intros H. apply In_consFirst in H as [(seg & -> & Hseg)|H].
      - destruct Hc as [->|Hc]; [now left|]. right.
        destruct Hseg as [Hseg| ->]; [|destruct Hc]. apply (IH1 seg); auto.
      - right. apply (IH1 line); auto. }
    change (splitLines (x :: y :: text)) with
      (if x =? LF then [] :: splitLines (y :: text)
       else if (x =? CR) && (y =? LF) then [] :: splitLines text
            else consFirst x (splitLines (y :: text))) in Hline.
    destruct (x =? LF).
    + destruct Hline as [<-|Hline]; [destruct Hc|]. right. apply (IH1 line); auto.
    + destruct ((x =? CR) && (y =? LF)).
      * destruct Hline as [<-|Hline]; [destruct Hc|].
        right. right. apply (IH0 line); auto.
      * apply Hfirst, Hline.
Qed.

Lemma mapM_ext_in {A B : Type} (f g : A -> result B) xs :
  (forall x, In x xs -> f x = g x) -> mapM f xs = mapM g xs.
Proof.
  induction xs as [|x xs IH]; simpl; [reflexivity|].
  intros H. rewrite (H x (or_introl eq_refl)), IH; [reflexivity|].
  intros y Hy. apply H. now right.
Qed.

(** Without colon and tab the two per-line parsers are the same. *)
Lemma parseLine_parseDocxLine line :
  existsb isColonOrTab line = false -> parseLine line = parseDocxLine line.
Proof.
  intros H. unfold parseLine, parseDocxLine.
  destruct (2 <=? List.length (split isEquals line))%nat; [reflexivity|].
  rewrite split_two, H. reflexivity.
Qed.

Section DocxAndText.

Variable toLowerCase : jsstring -> jsstring.

(** The DOCX utility and the text parser read a text that has neither
    colon nor tab into the same records. *)
Theorem docx_agrees_without_colon_and_tab text :
  includes COLON text = false ->
  includes TAB text = false ->
  parseNamesFromText toLowerCase text = Ok (parseDocxNames toLowerCase text).
Proof.
  intros Hc Ht.
  assert (Hlines : forall line, In line (filter notBlank (splitLines text)) ->
                                parseDocxLine line = parseLine line).
  { intros line Hline. apply filter_In in Hline as [Hline _].
    symmetry. apply parseLine_parseDocxLine.
    rewrite isColonOrTab_includes.
    rewrite (includes_false_incl COLON text line), (includes_false_incl TAB text line);
      auto; intros c Hin; apply (In_splitLines c text line); auto. }
  unfold parseDocxNames. rewrite (mapM_ext_in _ _ _ Hlines).
  unfold parseNamesFromText. rewrite parseRawLines_eq, mapM_parseLine.
  reflexivity.
Qed.

End DocxAndText.

Lemma docx_agrees_without_colon_and_tab_witness :
  includes COLON (lit "Ann = 1") = false /\
  includes TAB (lit "Ann = 1") = false /\
  parseNamesFromText toLowerCaseLatin1 (lit "Ann = 1") =
  Ok (parseDocxNames toLowerCaseLatin1 (lit "Ann = 1")).
Proof.
  split; [reflexivity|]. split; [reflexivity|].
  apply (docx_agrees_without_colon_and_tab toLowerCaseLatin1 (lit "Ann = 1"));
    reflexivity.
Defined.

(** *** White space at the end of a line *)

(** The first segment of a split is the text before the first separator. *)
Lemma split_head (sep : codeunit -> bool) s seg segs :
  split sep s = seg :: segs ->
  existsb sep seg = false /\ exists rest, s = seg ++ rest.
Proof.
  revert seg segs; induction s as [|c s IH]; simpl; intros seg segs E.
  - injection E as <- <-. split; [reflexivity | exists []; reflexivity].
  - destruct (sep c) eqn:Hc.
    + injection E as <- <-. split; [reflexivity | exists (c :: s); reflexivity].
    + destruct (split_cons_shape sep s) as (seg0 & segs0 & E0).
      rewrite E0 in E. simpl in E. injection E as <- <-.
      destruct (IH _ _ E0) as [Hseg (rest & ->)].
      split; [simpl; rewrite Hc; exact Hseg | exists rest; reflexivity].
Qed.

Lemma allWhiteSpace_prefix s t :
  allWhiteSpace (s ++ t) = true -> allWhiteSpace s = true.
Proof. rewrite allWhiteSpace_app. intros H. apply andb_true_iff in H. tauto. Qed.

Lemma allWhiteSpace_existsb (p : codeunit -> bool) w :
  (forall c, p c = true -> isWhiteSpace c = false) ->
  allWhiteSpace w = true -> existsb p w = false.
Proof.
  intros Hp Hw. destruct (existsb p w) eqn:E; [|reflexivity].
  apply existsb_exists in E as (c & Hc & Hpc).
  apply (proj1 (forallb_forall isWhiteSpace w) Hw) in Hc.
  rewrite (Hp c Hpc) in Hc. discriminate.
Qed.

Lemma allWhiteSpace_no_equals w :
  allWhiteSpace w = true -> includes EQUALS w = false.
Proof.
  intros H. rewrite <- isEquals_includes.
  apply allWhiteSpace_existsb; [|exact H].
  intros c Hc. apply N.eqb_eq in Hc. subst c. reflexivity.
Qed.

(** White space after the text adds white space, at most, to the first
    segment. *)
Lemma split_app_allWhiteSpace (sep : codeunit -> bool) s w seg segs :
  allWhiteSpace w = true ->
  split sep s = seg :: segs ->
  exists u segs',
    split sep (s ++ w) = (seg ++ u) :: segs' /\ allWhiteSpace u = true.
Proof.
  intros Hw. revert seg segs; induction s as [|c s IH]; simpl; intros seg segs E.
  - injection E as <- <-.
    destruct (split_cons_shape sep w) as (seg' & segs' & E').
    exists seg', segs'. split; [exact E'|].
    destruct (split_head sep w _ _ E') as [_ (rest & Hrest)].
    rewrite Hrest in Hw. apply allWhiteSpace_prefix in Hw. exact Hw.
  - destruct (sep c).
    + injection E as <- <-. exists [], (split sep (s ++ w)). auto.
    + destruct (split_cons_shape sep s) as (seg0 & segs0 & E0).
      rewrite E0 in E. simpl in E. injection E as <- <-.
      destruct (IH _ _ E0) as (u & segs' & E' & Hu).
      rewrite E'. simpl. exists u, segs'. auto.
Qed.

(** White space after a line does not change the record of the line. *)
Lemma parseLine_trailing_white_space line w :
  allWhiteSpace w = true -> parseLine (line ++ w) = parseLine line.
Proof.
  intros Hw. pose proof (allWhiteSpace_no_equals w Hw) as Hweq.
  destruct (includes EQUALS line) eqn:Heq.
  - rewrite <- isEquals_includes in Heq.
    destruct (first_separator _ _ Heq) as (pre & d & post & -> & Hpre & Hd).
    apply N.eqb_eq in Hd. subst d. rewrite isEquals_includes in Hpre.
    rewrite <- app_assoc. simpl. rewrite !parseLine_equals by exact Hpre.
    rewrite (trim_app_allWhiteSpace post w Hw). reflexivity.
  - assert (Heq' : includes EQUALS (line ++ w) = false)
      by (rewrite includes_app, Heq, Hweq; reflexivity).
    destruct (existsb isColonOrTab line) eqn:Halt.
    + destruct (first_separator _ _ Halt) as (pre & d & rest & -> & Hpre & Hd).
      destruct (split_cons_shape isColonOrTab rest) as (seg & segs & E).
      destruct (split_app_allWhiteSpace isColonOrTab rest w seg segs Hw E)
        as (u & segs' & E' & Hu).
      rewrite (parseLine_alt _ _ _ _ _ Heq Hpre Hd E).
      rewrite <- app_assoc in Heq' |- *. simpl in Heq' |- *.
      rewrite (parseLine_alt _ _ _ _ _ Heq' Hpre Hd E').
      rewrite (trim_app_allWhiteSpace seg u Hu). reflexivity.
    + rewrite (parseLine_plain _ Heq Halt).
      destruct (existsb isColonOrTab w) eqn:Hwalt.
      * destruct (first_separator _ _ Hwalt) as (w1 & d & w2 & -> & Hw1 & Hd).
        rewrite allWhiteSpace_app in Hw. apply andb_true_iff in Hw as [Hws1 Hws2].
        change (allWhiteSpace (d :: w2)) with (isWhiteSpace d && allWhiteSpace w2) in Hws2.
        apply andb_true_iff in Hws2 as [_ Hws2].
        destruct (split_cons_shape isColonOrTab w2) as (seg & segs & E).
        destruct (split_head _ _ _ _ E) as [_ (rest & Hrest)].
        rewrite Hrest in Hws2. apply allWhiteSpace_prefix in Hws2.
        rewrite app_assoc in Heq' |- *.
        rewrite (parseLine_alt (line ++ w1) d w2 seg segs Heq'); auto.
        -- rewrite (trim_app_allWhiteSpace line w1 Hws1), (trim_allWhiteSpace seg Hws2).
           reflexivity.
        -- rewrite existsb_app, Halt, Hw1. reflexivity.
      * rewrite (parseLine_plain _ Heq').
        -- rewrite (trim_app_allWhiteSpace line w Hw). reflexivity.
        -- rewrite existsb_app, Halt, Hwalt. reflexivity.
Qed.

Lemma notBlank_trailing_white_space line w :
  allWhiteSpace w = true -> notBlank (line ++ w) = notBlank line.
Proof.
  intros Hw. rewrite !notBlank_allWhiteSpace, allWhiteSpace_app, Hw, andb_true_r.
  reflexivity.
Qed.

(** *** Line ends *)

Lemma splitLines_one c : splitLines [c] = if c =? LF then [[]; []] else [[c]].
Proof. simpl. destruct (c =? LF); reflexivity. Qed.

Lemma splitLines_two c d s :
  splitLines (c :: d :: s) =
  if c =? LF then [] :: splitLines (d :: s)
  else if (c =? CR) && (d =? LF) then [] :: splitLines s
       else consFirst c (splitLines (d :: s)).
Proof. reflexivity. Qed.

Lemma consFirst_app c (segs more : list jsstring) :
  segs <> [] -> consFirst c (segs ++ more) = consFirst c segs ++ more.
Proof. destruct segs; [congruence | reflexivity]. Qed.

Lemma splitLines_not_nil text : splitLines text <> [].
Proof. destruct (splitLines_cons_shape text) as (l & ls & ->). discriminate. Qed.

(** A carriage return and line feed end a line, whatever comes before. *)
Lemma splitLines_app_CRLF t1 t2 :
  splitLines (t1 ++ CR :: LF :: t2) = splitLines t1 ++ splitLines t2.
Proof.
  induction t1 as [| c | c d s IH0 IH1] using list_ind2.
  - reflexivity.
  - change ([c] ++ CR :: LF :: t2) with (c :: CR :: LF :: t2).
    rewrite splitLines_two, (splitLines_one c).
    change ((c =? CR) && (CR =? LF)) with ((c =? CR) && false).
    rewrite andb_false_r.
    change (splitLines (CR :: LF :: t2)) with ([] :: splitLines t2).
    destruct (c =? LF); reflexivity.
  - change ((c :: d :: s) ++ CR :: LF :: t2)
      with (c :: d :: (s ++ CR :: LF :: t2)).
    rewrite !splitLines_two.
    change (d :: s ++ CR :: LF :: t2) with ((d :: s) ++ CR :: LF :: t2).
    rewrite IH0, IH1.
    destruct (c =? LF); [reflexivity|].
    destruct ((c =? CR) && (d =? LF)); [reflexivity|].
    apply consFirst_app, splitLines_not_nil.
Qed.

(** A line feed ends a line that does not end in a carriage return. *)
Lemma splitLines_app_LF_plain t1 t2 :
  dropLastCR t1 = t1 ->
  splitLines (t1 ++ LF :: t2) = splitLines t1 ++ splitLines t2.
Proof.
  induction t1 as [| c | c d s IH0 IH1] using list_ind2; intros Hlast.
  - reflexivity.
  - change ([c] ++ LF :: t2) with (c :: LF :: t2).
    rewrite splitLines_two, (splitLines_one c).
    simpl in Hlast. destruct (c =? CR) eqn:Hc; [discriminate|].
    change (splitLines (LF :: t2)) with ([] :: splitLines t2).
    destruct (c =? LF); reflexivity.
  - assert (Hd : dropLastCR (d :: s) = d :: s).
    { change (dropLastCR (c :: d :: s)) with (c :: dropLastCR (d :: s)) in Hlast.
      congruence. }
    assert (Hs : dropLastCR s = s).
    { destruct s as [|e s]; [reflexivity|].
      change (dropLastCR (d :: e :: s)) with (d :: dropLastCR (e :: s)) in Hd.
      congruence. }
    change ((c :: d :: s) ++ LF :: t2) with (c :: d :: (s ++ LF :: t2)).
    rewrite !splitLines_two.
    change (d :: s ++ LF :: t2) with ((d :: s) ++ LF :: t2).
    rewrite (IH0 Hs), (IH1 Hd).
    destruct (c =? LF); [reflexivity|].
    destruct ((c =? CR) && (d =? LF)); [reflexivity|].
    apply consFirst_app, splitLines_not_nil.
Qed.

Lemma dropLastCR_cases t :
  t = dropLastCR t ++ [CR] \/ dropLastCR t = t.
Proof.
  induction t as [|c t IH]; [right; reflexivity|].
  destruct t as [|d t].
  - simpl. destruct (c =? CR) eqn:Hc; [|right; reflexivity].
    apply N.eqb_eq in Hc. subst c. left. reflexivity.
  - change (dropLastCR (c :: d :: t)) with (c :: dropLastCR (d :: t)).
    destruct IH as [IH|IH]; [left | right].
    + cbn [app]. f_equal. exact IH.
    + rewrite IH. reflexivity.
Qed.

Lemma splitLines_app_LF t1 t2 :
  splitLines (t1 ++ LF :: t2) = splitLines (dropLastCR t1) ++ splitLines t2.
Proof.
  destruct (dropLastCR_cases t1) as [H|H].
  - rewrite H at 1. rewrite <- app_assoc. simpl. apply splitLines_app_CRLF.
  - rewrite H. apply splitLines_app_LF_plain, H.
Qed.

Lemma consFirst_mapLast (f : jsstring -> jsstring) c segs :
  segs <> [] -> (forall seg, f (c :: seg) = c :: f seg) ->
  consFirst c (mapLast f segs) = mapLast f (consFirst c segs).
Proof.
  intros Hne Hf. destruct segs as [|seg [|seg' segs]]; [congruence| |reflexivity].
  simpl. rewrite Hf. reflexivity.
Qed.

(** A carriage return at the end of the text goes to the last line. *)
Lemma splitLines_snoc_CR t :
  splitLines (t ++ [CR]) = mapLast (fun line => line ++ [CR]) (splitLines t).
Proof.
  induction t as [| c | c d s IH0 IH1] using list_ind2.
  - reflexivity.
  - change ([c] ++ [CR]) with (c :: CR :: []).
    rewrite splitLines_two, (splitLines_one c).
    change ((c =? CR) && (CR =? LF)) with ((c =? CR) && false).
    rewrite andb_false_r.
    change (splitLines [CR]) with [[CR]].
    destruct (c =? LF); reflexivity.
  - change ((c :: d :: s) ++ [CR]) with (c :: d :: (s ++ [CR])).
    rewrite !splitLines_two.
    change (d :: s ++ [CR]) with ((d :: s) ++ [CR]).
    rewrite IH0, IH1.
    destruct (c =? LF).
    + destruct (splitLines_cons_shape (d :: s)) as (l & ls & ->). reflexivity.
    + destruct ((c =? CR) && (d =? LF)).
      * destruct (splitLines_cons_shape s) as (l & ls & ->). reflexivity.
      * apply consFirst_mapLast; [apply splitLines_not_nil | reflexivity].
Qed.

Lemma lineItem_trailing_white_space line w :
  allWhiteSpace w = true -> lineItem (line ++ w) = lineItem line.
Proof.
  intros Hw. unfold lineItem.
  rewrite (parseLine_trailing_white_space line w Hw). reflexivity.
Qed.

Lemma lineItems_mapLast w lines :
  allWhiteSpace w = true ->
  List.map lineItem (filter notBlank (mapLast (fun line => line ++ w) lines)) =
  List.map lineItem (filter notBlank lines).
Proof.
  intros Hw. induction lines as [|l ls IH]; [reflexivity|].
  destruct ls as [|l' ls].
  - cbn [mapLast filter]. rewrite (notBlank_trailing_white_space l w Hw).
    destruct (notBlank l); [|reflexivity].
    cbn [List.map]. rewrite (lineItem_trailing_white_space l w Hw). reflexivity.
  - change (mapLast (fun line => line ++ w) (l :: l' :: ls))
      with (l :: mapLast (fun line => line ++ w) (l' :: ls)).
    cbn [filter]. cbn [filter] in IH.
    destruct (notBlank l); cbn [List.map]; rewrite IH; reflexivity.
Qed.

Section LineEnds.

Variable toLowerCase : jsstring -> jsstring.

Lemma parseRawLines_app_eq raw1 raw2 raw1' :
  parseRawLines toLowerCase raw1 = parseRawLines toLowerCase raw1' ->
  parseRawLines toLowerCase (raw1 ++ raw2) =
  parseRawLines toLowerCase (raw1' ++ raw2).
Proof.
  rewrite !parseRawLines_eq. intros [= H].
  rewrite !filter_app, !map_app, !filter_app, H. reflexivity.
Qed.

(** A carriage return at the end of a text changes nothing. *)
Lemma parseRawLines_dropLastCR t :
  parseRawLines toLowerCase (splitLines (dropLastCR t)) =
  parseRawLines toLowerCase (splitLines t).
Proof.
  destruct (dropLastCR_cases t) as [H|H]; [|rewrite H; reflexivity].
  rewrite H at 2. rewrite splitLines_snoc_CR, !parseRawLines_eq.
  rewrite (lineItems_mapLast [CR] _ eq_refl). reflexivity.
Qed.

Lemma parseNamesFromText_CRLF t1 t2 :
  parseNamesFromText toLowerCase (t1 ++ CR :: LF :: t2) =
  parseNamesFromText toLowerCase (t1 ++ LF :: t2).
Proof.
  unfold parseNamesFromText. rewrite splitLines_app_CRLF, splitLines_app_LF.
  apply parseRawLines_app_eq. symmetry. apply parseRawLines_dropLastCR.
Qed.

(** Windows and Unix line ends give the same records: a carriage return
    before a line feed can be left out. *)
Theorem CRLF_same_as_LF t1 t2 :
  parseNamesFromText toLowerCase (t1 ++ CR :: LF :: t2) =
  parseNamesFromText toLowerCase (t1 ++ LF :: t2).
Proof. apply parseNamesFromText_CRLF. Qed.

(** The records of two texts joined by a line end are the records of the
    first text followed by those of the second. *)
Theorem records_of_joined_texts t1 t2 :
  exists out1 out2,
    parseNamesFromText toLowerCase t1 = Ok out1 /\
    parseNamesFromText toLowerCase t2 = Ok out2 /\
    parseNamesFromText toLowerCase (t1 ++ LF :: t2) = Ok (out1 ++ out2) /\
    parseNamesFromText toLowerCase (t1 ++ CR :: LF :: t2) = Ok (out1 ++ out2).
Proof.
  rewrite parseNamesFromText_CRLF. unfold parseNamesFromText.
  rewrite splitLines_app_LF.
  rewrite (parseRawLines_app_eq _ _ _ (parseRawLines_dropLastCR t1)).
  rewrite !parseRawLines_eq. do 2 eexists.
  split; [reflexivity|]. split; [reflexivity|].
  rewrite filter_app, map_app, filter_app. auto.
Qed.

(** White space at the end of a line, tabs included, does not change the
    record of the line, nor whether the line counts as blank. *)
Theorem trailing_white_space_ignored line w :
  allWhiteSpace w = true ->
  parseLine (line ++ w) = parseLine line /\
  parseRawLines toLowerCase [line ++ w] = parseRawLines toLowerCase [line].
Proof.
  intros Hw. split; [apply parseLine_trailing_white_space, Hw|].
  rewrite !parseRawLines_eq. cbn [filter].
  rewrite (notBlank_trailing_white_space line w Hw).
  destruct (notBlank line); [|reflexivity].
  cbn [List.map]. rewrite (lineItem_trailing_white_space line w Hw). reflexivity.
Qed.

End LineEnds.

Lemma trailing_white_space_ignored_witness :
  allWhiteSpace [SPACE; TAB; CR] = true /\
  parseLine (colonLine ++ [SPACE; TAB; CR]) = parseLine colonLine /\
  parseRawLines toLowerCaseLatin1 [colonLine ++ [SPACE; TAB; CR]] =
  parseRawLines toLowerCaseLatin1 [colonLine].
Proof.
  split; [reflexivity|].
  apply (trailing_white_space_ignored toLowerCaseLatin1 colonLine
           [SPACE; TAB; CR]).
  reflexivity.
Defined.

(** *** What the fields of a record hold, and reading records back *)

Lemma lineItem_name_no_equals line :
  includes EQUALS (name (lineItem line)) = false.
Proof.
  destruct (includes EQUALS line) eqn:Heq.
  - rewrite <- isEquals_includes in Heq.
    destruct (first_separator _ _ Heq) as (pre & d & post & -> & Hpre & Hd).
    apply N.eqb_eq in Hd. subst d. rewrite isEquals_includes in Hpre.
    unfold lineItem. rewrite (parseLine_equals _ _ Hpre). simpl.
    apply (includes_false_incl EQUALS pre (trim pre));
      [intros c; apply In_trim | exact Hpre].
  - destruct (parseLine_pieces line) as (x & y & E & Hx & _).
    unfold lineItem. rewrite E. simpl.
    apply (includes_false_incl EQUALS line); [|exact Heq].
    intros c Hc. apply Hx, In_trim, Hc.
Qed.

Lemma trimEnd_nil s : trimEnd s = [] -> allWhiteSpace s = true.
Proof.
  unfold trimEnd. intros H. apply (f_equal (@rev codeunit)) in H.
  rewrite rev_involutive in H. simpl in H.
  apply trimStart_nil in H. rewrite allWhiteSpace_rev in H. exact H.
Qed.

(** What [trim] returns does not end in a carriage return. *)
Lemma dropLastCR_trimEnd s : dropLastCR (trimEnd s) = trimEnd s.
Proof.
  induction s as [|c s IH]; [reflexivity|].
  rewrite trimEnd_cons. destruct (allWhiteSpace s) eqn:Hs.
  - destruct (isWhiteSpace c) eqn:Hc; [reflexivity|].
    simpl. destruct (c =? CR) eqn:E; [|reflexivity].
    apply N.eqb_eq in E. subst c. discriminate Hc.
  - destruct (trimEnd s) as [|d t] eqn:E.
    + apply trimEnd_nil in E. congruence.
    + change (dropLastCR (c :: d :: t)) with (c :: dropLastCR (d :: t)).
      rewrite IH. reflexivity.
Qed.

Lemma dropLastCR_app s t :
  t <> [] -> dropLastCR (s ++ t) = s ++ dropLastCR t.
Proof.
  intros Ht. induction s as [|c s IH]; [reflexivity|].
  cbn [app]. destruct (s ++ t) as [|d u] eqn:E.
  - destruct s; [simpl in E; congruence | discriminate E].
  - change (dropLastCR (c :: d :: u)) with (c :: dropLastCR (d :: u)).
    rewrite IH. reflexivity.
Qed.

Lemma serializeItem_shape it :
  serializeItem it = (name it ++ [SPACE]) ++ EQUALS :: ([SPACE] ++ table it).
Proof. unfold serializeItem. rewrite <- app_assoc. reflexivity. Qed.

Lemma serializeItem_dropLastCR it :
  trim (table it) = table it ->
  dropLastCR (serializeItem it) = serializeItem it.
Proof.
  intros Ht. rewrite serializeItem_shape.
  rewrite dropLastCR_app by discriminate. f_equal.
  change (EQUALS :: [SPACE] ++ table it) with ([EQUALS] ++ SPACE :: table it).
  rewrite dropLastCR_app by discriminate. f_equal.
  destruct (table it) as [|c t] eqn:E; [reflexivity|].
  change (dropLastCR (SPACE :: c :: t)) with (SPACE :: dropLastCR (c :: t)).
  f_equal. rewrite <- Ht. unfold trim. apply dropLastCR_trimEnd.
Qed.

Lemma serializeItem_no_LF it :
  includes LF (name it) = false -> includes LF (table it) = false ->
  includes LF (serializeItem it) = false.
Proof.
  intros Hn Ht. rewrite serializeItem_shape.
  change (EQUALS :: [SPACE] ++ table it) with ([EQUALS; SPACE] ++ table it).
  rewrite !includes_app, Hn, Ht. reflexivity.
Qed.

(** The line written for a record is read as that record. *)
Lemma serializeItem_parse it :
  trim (name it) = name it -> trim (table it) = table it ->
  includes EQUALS (name it) = false ->
  parseLine (serializeItem it) = Ok it /\ notBlank (serializeItem it) = true.
Proof.
  intros Hn Ht Heq. rewrite serializeItem_shape. split.
  - rewrite parseLine_equals by (rewrite includes_app, Heq; reflexivity).
    rewrite (trim_app_allWhiteSpace (name it) [SPACE] eq_refl), Hn.
    rewrite (trim_allWhiteSpace_app [SPACE] (table it) eq_refl), Ht.
    destruct it; reflexivity.
  - rewrite notBlank_allWhiteSpace, allWhiteSpace_app.
    change (allWhiteSpace (EQUALS :: [SPACE] ++ table it)) with false.
    rewrite andb_false_r. reflexivity.
Qed.

Lemma lineItem_clean line : includes LF line = false -> cleanItem (lineItem line).
Proof.
  intros H. destruct (lineItem_trimmed line) as [Hn Ht].
  destruct (lineItem_no_LF line H) as [Hn' Ht'].
  repeat split; auto. apply lineItem_name_no_equals.
Qed.

Lemma splitLines_serialize items :
  items <> [] -> Forall cleanItem items ->
  splitLines (serialize items) = List.map serializeItem items.
Proof.
  unfold serialize. induction items as [|it items IH]; [congruence|].
  intros _ Hall. inversion Hall as [|? ? (Hn & Ht & Heq & HnLF & HtLF) Hrest]; subst.
  destruct items as [|it' items].
  - simpl. apply splitLines_single, serializeItem_no_LF; assumption.
  - change (join [LF] (List.map serializeItem (it :: it' :: items)))
      with (serializeItem it ++ LF :: join [LF] (List.map serializeItem (it' :: items))).
    rewrite splitLines_app_LF, (serializeItem_dropLastCR it Ht).
    rewrite splitLines_single by (apply serializeItem_no_LF; assumption).
    rewrite IH by (try discriminate; assumption). reflexivity.
Qed.

Section ReadingBack.

Variable toLowerCase : jsstring -> jsstring.

Lemma output_items_clean text out :
  parseNamesFromText toLowerCase text = Ok out ->
  Forall (fun it => cleanItem it /\ keepItem toLowerCase it = true) out.
Proof.
  unfold parseNamesFromText. rewrite parseRawLines_eq. intros [= <-].
  apply Forall_forall. intros it Hin.
  apply filter_In in Hin as [Hin Hkeep].
  apply in_map_iff in Hin as (line & <- & Hline).
  apply filter_In in Hline as [Hline _].
  split; [|exact Hkeep]. apply lineItem_clean, (splitLines_no_LF text), Hline.
Qed.

Lemma parseRawLines_serialized items :
  Forall (fun it => cleanItem it /\ keepItem toLowerCase it = true) items ->
  parseRawLines toLowerCase (List.map serializeItem items) = Ok items.
Proof.
  rewrite parseRawLines_eq. intros Hall. f_equal.
  induction Hall as [|it items [(Hn & Ht & Heq & _) Hkeep] _ IH]; [reflexivity|].
  destruct (serializeItem_parse it Hn Ht Heq) as [Hparse Hnb].
  assert (Hitem : lineItem (serializeItem it) = it)
    by (unfold lineItem; rewrite Hparse; reflexivity).
  cbn [List.map filter]. rewrite Hnb. cbn [List.map filter].
  rewrite Hitem, Hkeep, IH. reflexivity.
Qed.

(** In a record of the output the name has no equals sign, neither field
    has a line feed, and the table is trimmed as the name is. *)
Theorem output_fields_clean text out it :
  parseNamesFromText toLowerCase text = Ok out ->
  In it out ->
  includes EQUALS (name it) = false /\
  includes LF (name it) = false /\
  includes LF (table it) = false /\
  trim (table it) = table it.
Proof.
  intros Hout Hin.
  pose proof (proj1 (Forall_forall _ _) (output_items_clean text out Hout) it Hin)
    as [(Hn & Ht & Heq & HnLF & HtLF) _].
  auto.
Qed.

(** Writing the records of a parse back, one "name = table" line each,
    and parsing that text gives the same records again. *)
Theorem serialize_then_parse text out :
  parseNamesFromText toLowerCase text = Ok out ->
  parseNamesFromText toLowerCase (serialize out) = Ok out.
Proof.
  intros Hout. pose proof (output_items_clean text out Hout) as Hall.
  destruct out as [|it out]; [reflexivity|].
  unfold parseNamesFromText. rewrite splitLines_serialize.
  - apply parseRawLines_serialized, Hall.
  - discriminate.
  - apply Forall_forall. intros x Hx.
    apply (proj1 (Forall_forall _ _) Hall x Hx).
Qed.

End ReadingBack.

Lemma output_fields_clean_witness :
  In johnDoe
    [ johnDoe;
      mkItem (lit "Jane Smith") (lit "Table 5");
      mkItem (lit "Bob Martin") (lit "Table 10");
      mkItem (lit "Alice Wonderland") (lit "Table 2");
      mkItem (lit "Just a Name") [];
      mkItem (lit "Name") (lit "Table = Something") ] /\
  includes EQUALS (name johnDoe) = false /\
  includes LF (name johnDoe) = false /\
  includes LF (table johnDoe) = false /\
  trim (table johnDoe) = table johnDoe.
Proof.
  split; [left; reflexivity|].
  apply (output_fields_clean toLowerCaseLatin1 testCases _ johnDoe
           testCases_parse).
  left. reflexivity.
Defined.

Lemma serialize_then_parse_witness :
  parseNamesFromText toLowerCaseLatin1
    (serialize
       [ mkItem (lit "John Doe") (lit "Table 1");
         mkItem (lit "Jane Smith") (lit "Table 5");
         mkItem (lit "Bob Martin") (lit "Table 10");
         mkItem (lit "Alice Wonderland") (lit "Table 2");
         mkItem (lit "Just a Name") [];
         mkItem (lit "Name") (lit "Table = Something") ]) =
  Ok [ mkItem (lit "John Doe") (lit "Table 1");
       mkItem (lit "Jane Smith") (lit "Table 5");
       mkItem (lit "Bob Martin") (lit "Table 10");
       mkItem (lit "Alice Wonderland") (lit "Table 2");
       mkItem (lit "Just a Name") [];
       mkItem (lit "Name") (lit "Table = Something") ].
Proof.
  apply (serialize_then_parse toLowerCaseLatin1 testCases _ testCases_parse).
Defined.

(** ** The overlay text *)

Lemma replaceAll_flat_map c by_ s :
  replaceAll c by_ s = flat_map (fun d => if d =? c then by_ else [d]) s.
Proof.
  induction s as [|d s IH]; simpl; [reflexivity|].
  rewrite IH. destruct (d =? c); reflexivity.
Qed.

Lemma flat_map_flat_map {A B C : Type} (f : A -> list B) (g : B -> list C) xs :
  flat_map g (flat_map f xs) = flat_map (fun a => flat_map g (f a)) xs.
Proof.
  induction xs as [|a xs IH]; simpl; [reflexivity|].
  rewrite flat_map_app, IH. reflexivity.
Qed.

Lemma escapeUnit_cases c :
  (c = AMPERSAND /\ escapeUnit c = lit "&amp;") \/
  (c = LESS /\ escapeUnit c = lit "&lt;") \/
  (c = GREATER /\ escapeUnit c = lit "&gt;") \/
  ((c =? AMPERSAND) = false /\ (c =? LESS) = false /\ (c =? GREATER) = false /\
   escapeUnit c = [c]).
Proof.
  unfold escapeUnit.
  destruct (c =? AMPERSAND) eqn:Ha; [apply N.eqb_eq in Ha; auto|].
  destruct (c =? LESS) eqn:Hl; [apply N.eqb_eq in Hl; auto|].
  destruct (c =? GREATER) eqn:Hg; [apply N.eqb_eq in Hg; auto|].
  right. right. right. auto.
Qed.

(** The three replacements, one after the other, amount to one pass. *)
Lemma safeStr_flat_map s : safeStr (Some s) = flat_map escapeUnit s.
Proof.
  unfold safeStr. rewrite !replaceAll_flat_map, !flat_map_flat_map.
  apply flat_map_ext. intros c.
  destruct (escapeUnit_cases c) as [[-> E]|[[-> E]|[[-> E]|(Ha & Hl & Hg & E)]]];
    rewrite E; try reflexivity.
  rewrite Ha. simpl. rewrite Hl. simpl. rewrite Hg. reflexivity.
Qed.

Lemma unescape_escapeUnit c rest :
  unescape (escapeUnit c ++ rest) = c :: unescape rest.
Proof.
  destruct (escapeUnit_cases c) as [[-> E]|[[-> E]|[[-> E]|(Ha & Hl & Hg & E)]]];
    rewrite E; try reflexivity.
  simpl. rewrite Ha. reflexivity.
Qed.

Lemma unescape_safeStr s : unescape (safeStr (Some s)) = s.
Proof.
  rewrite safeStr_flat_map. induction s as [|c s IH]; [reflexivity|].
  simpl. rewrite unescape_escapeUnit, IH. reflexivity.
Qed.

Lemma existsb_flat_map {A B : Type} (p : B -> bool) (f : A -> list B) xs :
  existsb p (flat_map f xs) = existsb (fun a => existsb p (f a)) xs.
Proof.
  induction xs as [|a xs IH]; simpl; [reflexivity|].
  rewrite existsb_app, IH. reflexivity.
Qed.

(** [safeStr] loses nothing: two texts with the same escaped form are the
    same text. *)
Theorem safeStr_injective s t :
  safeStr (Some s) = safeStr (Some t) -> s = t.
Proof.
  intros H. apply (f_equal unescape) in H.
  rewrite !unescape_safeStr in H. exact H.
Qed.

Lemma safeStr_injective_witness :
  safeStr (Some (lit "Tom & Ann")) = safeStr (Some (lit "Tom & Ann")) /\
  lit "Tom & Ann" = lit "Tom & Ann".
Proof.
  split; [reflexivity|].
  apply (safeStr_injective (lit "Tom & Ann") (lit "Tom & Ann")). reflexivity.
Defined.

Lemma escapeUnit_ampersand c a b :
  escapeUnit c = a ++ AMPERSAND :: b ->
  a = [] /\ (b = lit "amp;" \/ b = lit "lt;" \/ b = lit "gt;").
Proof.
  destruct (escapeUnit_cases c) as [[-> E]|[[-> E]|[[-> E]|(Ha & Hl & Hg & E)]]];
    rewrite E; intros H.
  - destruct a as [|x a]; [injection H as <-; auto|].
    exfalso. injection H as _ H.
    repeat (destruct a as [|? a]; [discriminate H | injection H as _ H]).
    destruct a; discriminate H.
  - destruct a as [|x a]; [injection H as <-; auto|].
    exfalso. injection H as _ H.
    repeat (destruct a as [|? a]; [discriminate H | injection H as _ H]).
    destruct a; discriminate H.
  - destruct a as [|x a]; [injection H as <-; auto|].
    exfalso. injection H as _ H.
    repeat (destruct a as [|? a]; [discriminate H | injection H as _ H]).
    destruct a; discriminate H.
  - exfalso. destruct a as [|x a].
    + injection H as -> _. discriminate Ha.
    + injection H as _ H. destruct a; discriminate H.
Qed.

Lemma app_eq_app_cases {A : Type} (u v a b : list A) :
  u ++ v = a ++ b ->
  (exists w, a = u ++ w /\ v = w ++ b) \/
  (exists w, w <> [] /\ u = a ++ w /\ b = w ++ v).
Proof.
  revert a; induction u as [|x u IH]; intros a H.
  - left. exists a. auto.
  - destruct a as [|y a].
    + right. exists (x :: u). split; [discriminate|]. auto.
    + injection H as <- H. destruct (IH a H) as [(w & -> & ->)|(w & Hw & -> & ->)].
      * left. exists w. auto.
      * right. exists w. auto.
Qed.

Lemma flat_map_escapeUnit_ampersand s a b :
  flat_map escapeUnit s = a ++ AMPERSAND :: b ->
  exists b', b = lit "amp;" ++ b' \/ b = lit "lt;" ++ b' \/ b = lit "gt;" ++ b'.
Proof.
  revert a; induction s as [|c s IH]; intros a H.
  - destruct a; discriminate H.
  - simpl in H. apply app_eq_app_cases in H as [(w & -> & H)|(w & Hw & Hu & Hb)].
    + apply (IH w H).
    + destruct w as [|x w]; [congruence|].
      injection Hb as <- ->.
      apply escapeUnit_ampersand in Hu as [_ [->|[->| ->]]];
        exists (flat_map escapeUnit s); auto.
Qed.

(** The escaped text is character data: it has no angle bracket, and
    each ampersand in it starts one of the entities of the ampersand and
    of the two angle brackets. *)
Theorem safeStr_is_character_data s :
  includes LESS (safeStr s) = false /\
  includes GREATER (safeStr s) = false /\
  (forall a b, safeStr s = a ++ AMPERSAND :: b ->
     exists b', b = lit "amp;" ++ b' \/ b = lit "lt;" ++ b' \/
                b = lit "gt;" ++ b').
Proof.
  assert (H : forall t,
             includes LESS (safeStr (Some t)) = false /\
             includes GREATER (safeStr (Some t)) = false /\
             (forall a b, safeStr (Some t) = a ++ AMPERSAND :: b ->
                exists b', b = lit "amp;" ++ b' \/ b = lit "lt;" ++ b' \/
                           b = lit "gt;" ++ b')).
  { intros t. rewrite safeStr_flat_map. split; [|split].
    - unfold includes. rewrite existsb_flat_map.
      induction t as [|c t IH]; [reflexivity|].
      cbn [existsb]. rewrite IH, orb_false_r.
      destruct (escapeUnit_cases c) as [[-> E]|[[-> E]|[[-> E]|(Ha & Hl & Hg & E)]]];
        rewrite E; try reflexivity.
      cbn [existsb]. rewrite N.eqb_sym, Hl. reflexivity.
    - unfold includes. rewrite existsb_flat_map.
      induction t as [|c t IH]; [reflexivity|].
      cbn [existsb]. rewrite IH, orb_false_r.
      destruct (escapeUnit_cases c) as [[-> E]|[[-> E]|[[-> E]|(Ha & Hl & Hg & E)]]];
        rewrite E; try reflexivity.
      cbn [existsb]. rewrite N.eqb_sym, Hg. reflexivity.
    - intros a b. apply flat_map_escapeUnit_ampersand. }
  destruct s as [t|]; [apply H|]. apply (H []).
Qed.

(** ** The output files of a batch *)

Example outputFileName_sample :
  outputFileName 6 {| name := lit "Anne-Marie  D'Arc"; table := [] |} =
  lit "007-Anne-Marie_D_Arc.png".
Proof. vm_compute. reflexivity. Qed.

Lemma sanitizeFrom_chars inRun s :
  forallb isNameChar (sanitizeFrom inRun s) = true.
Proof.
  revert inRun; induction s as [|c s IH]; intros inRun; [reflexivity|].
  simpl. destruct (isNameChar c) eqn:Hc.
  - simpl. rewrite Hc. apply IH.
  - destruct inRun; [apply IH|]. simpl. apply IH.
Qed.

Lemma string_of_uint_chars d :
  forallb isNameChar (lit (NilEmpty.string_of_uint d)) = true.
Proof. induction d; simpl; try exact IHd; reflexivity. Qed.

Lemma toStringZ_chars n : forallb isNameChar (toStringZ n) = true.
Proof.
  unfold toStringZ. destruct (Z.to_int n) as [d|d]; simpl.
  - apply string_of_uint_chars.
  - apply (string_of_uint_chars d).
Qed.

Lemma forallb_repeat {A : Type} (p : A -> bool) a n :
  p a = true -> forallb p (repeat a n) = true.
Proof. intros H. induction n; simpl; [reflexivity|]. rewrite H. exact IHn. Qed.

Lemma padStart_chars n s :
  forallb isNameChar s = true -> forallb isNameChar (padStart n ZERO s) = true.
Proof.
  intros H. unfold padStart. rewrite forallb_app, H, andb_true_r.
  apply forallb_repeat. reflexivity.
Qed.

Lemma forallb_no (p : codeunit -> bool) d s :
  p d = false -> forallb p s = true -> includes d s = false.
Proof.
  intros Hd Hs. unfold includes. destruct (existsb (N.eqb d) s) eqn:E; [|reflexivity].
  apply existsb_exists in E as (c & Hc & Hdc). apply N.eqb_eq in Hdc. subst c.
  rewrite (proj1 (forallb_forall p s) Hs d Hc) in Hd. discriminate.
Qed.

(** The name of an output file is made of letters, digits, underscores
    and hyphens, followed by ".png": it has no path separator and no
    other dot, whatever the name of the guest is. *)
Theorem outputFileName_is_plain idx entry :
  exists stem,
    outputFileName idx entry = stem ++ lit ".png" /\
    forallb isNameChar stem = true /\
    stem <> [] /\
    includes SLASH (outputFileName idx entry) = false /\
    includes BACKSLASH (outputFileName idx entry) = false /\
    includes DOT stem = false.
Proof.
  exists (padStart 3 ZERO (toStringZ (idx + 1)) ++ lit "-" ++
          sanitizeName (name entry)).
  assert (Hstem : forallb isNameChar
                    (padStart 3 ZERO (toStringZ (idx + 1)) ++ lit "-" ++
                     sanitizeName (name entry)) = true).
  { rewrite !forallb_app, padStart_chars by apply toStringZ_chars.
    unfold sanitizeName. rewrite sanitizeFrom_chars. reflexivity. }
  split; [unfold outputFileName; rewrite <- !app_assoc; reflexivity|].
  split; [exact Hstem|].
  split.
  { intros E. apply app_eq_nil in E as [_ E]. discriminate E. }
  unfold outputFileName.
  rewrite !app_assoc, <- (app_assoc _ (lit "-")).
  rewrite !(includes_app _ _ (lit ".png")).
  rewrite (forallb_no isNameChar SLASH _ eq_refl Hstem).
  rewrite (forallb_no isNameChar BACKSLASH _ eq_refl Hstem).
  rewrite (forallb_no isNameChar DOT _ eq_refl Hstem).
  auto.
Qed.

Lemma lit_injective s t : lit s = lit t -> s = t.
Proof.
  unfold lit. intros H.
  rewrite <- (string_of_list_ascii_of_string s), <- (string_of_list_ascii_of_string t).
  f_equal. revert H.
  generalize (list_ascii_of_string s) (list_ascii_of_string t).
  intros l; induction l as [|a l IH]; intros [|b l']; simpl; try discriminate.
  - reflexivity.
  - intros [= Hab Hl]. f_equal; [|apply IH, Hl].
    rewrite <- (ascii_N_embedding a), <- (ascii_N_embedding b), Hab. reflexivity.
Qed.

Lemma string_of_uint_injective d d' :
  NilEmpty.string_of_uint d = NilEmpty.string_of_uint d' -> d = d'.
Proof.
  intros H. apply (f_equal NilEmpty.uint_of_string) in H.
  rewrite !NilEmpty.usu in H. congruence.
Qed.

Lemma repeat_ZERO_digits k d :
  repeat ZERO k ++ lit (NilEmpty.string_of_uint d) =
  lit (NilEmpty.string_of_uint (Nat.iter k Decimal.D0 d)).
Proof. induction k as [|k IH]; [reflexivity|]. simpl. rewrite IH. reflexivity. Qed.

Lemma of_uint_iter_D0 k d : Z.of_uint (Nat.iter k Decimal.D0 d) = Z.of_uint d.
Proof. induction k as [|k IH]; [reflexivity|]. simpl. exact IH. Qed.

Lemma string_of_uint_no_hyphen d :
  includes HYPHEN (lit (NilEmpty.string_of_uint d)) = false.
Proof. induction d; simpl; try exact IHd; reflexivity. Qed.

(** The digits in front of the hyphen, for an index that is not
    negative. *)
Lemma padded_index idx :
  (0 <= idx)%Z ->
  exists d,
    padStart 3 ZERO (toStringZ (idx + 1)) = lit (NilEmpty.string_of_uint d) /\
    Z.of_uint d = (idx + 1)%Z.
Proof.
  intros Hidx. unfold padStart, toStringZ.
  pose proof (DecimalZ.of_to (idx + 1)) as Hof.
  destruct (Z.to_int (idx + 1)) as [d|d] eqn:E.
  - simpl in Hof. cbn [NilEmpty.string_of_int].
    rewrite repeat_ZERO_digits. eexists. split; [reflexivity|].
    rewrite of_uint_iter_D0. exact Hof.
  - exfalso. simpl in Hof.
    pose proof (N2Z.is_nonneg (Pos.of_uint d)) as Hn.
    unfold Z.of_uint in Hof. lia.
Qed.

Lemma prefix_before_first (h : codeunit) u u' r r' :
  includes h u = false -> includes h u' = false ->
  u ++ h :: r = u' ++ h :: r' -> u = u'.
Proof.
  revert u'; induction u as [|c u IH]; intros [|c' u'] Hu Hu' H; simpl in H.
  - reflexivity.
  - injection H as <- _. unfold includes in Hu'. simpl in Hu'.
    rewrite N.eqb_refl in Hu'. discriminate.
  - injection H as -> _. unfold includes in Hu. simpl in Hu.
    rewrite N.eqb_refl in Hu. discriminate.
  - injection H as <- H. f_equal.
    unfold includes in Hu, Hu'. simpl in Hu, Hu'.
    apply orb_false_iff in Hu as [_ Hu]. apply orb_false_iff in Hu' as [_ Hu'].
    apply (IH u' Hu Hu' H).
Qed.

Lemma outputFileName_index i j entry entry' :
  (0 <= i)%Z -> (0 <= j)%Z ->
  outputFileName i entry = outputFileName j entry' -> i = j.
Proof.
  intros Hi Hj H. unfold outputFileName in H.
  destruct (padded_index i Hi) as (d & Ed & Hd).
  destruct (padded_index j Hj) as (d' & Ed' & Hd').
  rewrite Ed, Ed' in H.
  change (lit "-") with [HYPHEN] in H. cbn [app] in H.
  apply prefix_before_first in H; try apply string_of_uint_no_hyphen.
  apply lit_injective, string_of_uint_injective in H. subst d'.
  lia.
Qed.

(** Two records at two places of the list get two file names, also when
    the guests have the same name: no invitation overwrites another. *)
Theorem outputFileName_distinct i j entry entry' :
  (0 <= i)%Z -> (0 <= j)%Z ->
  outputFileName i entry = outputFileName j entry' -> i = j.
Proof. apply outputFileName_index. Qed.

Lemma outputFileName_distinct_witness :
  (0 <= 6)%Z /\ (0 <= 6)%Z /\
  outputFileName 6 johnDoe = outputFileName 6 johnDoe /\ 6%Z = 6%Z.
Proof.
  split; [lia|]. split; [lia|]. split; [reflexivity|].
  apply (outputFileName_distinct 6 6 johnDoe johnDoe); [lia | lia | reflexivity].
Defined.

(** ** The batches of [/api/generate] *)

Lemma firstn_min_length {A : Type} n (l : list A) :
  firstn (Nat.min n (List.length l)) l = firstn n l.
Proof.
  destruct (Nat.le_gt_cases n (List.length l)) as [H|H].
  - rewrite Nat.min_l by exact H. reflexivity.
  - rewrite Nat.min_r by lia. rewrite !firstn_all2 by lia. reflexivity.
Qed.

Lemma firstn_plus {A : Type} a b (l : list A) :
  firstn (a + b) l = firstn a l ++ firstn b (skipn a l).
Proof.
  revert l; induction a as [|a IH]; intros l; [reflexivity|].
  destruct l as [|x l]; simpl; [rewrite firstn_nil; reflexivity|].
  rewrite IH. reflexivity.
Qed.

Lemma batch_bounds total offset limit :
  (0 <= batchStart offset)%Z /\
  (batchSize limit <= 50)%Z /\
  (endExclusive total offset limit <= Z.of_nat total)%Z /\
  (endExclusive total offset limit - batchStart offset <= 50)%Z.
Proof. unfold endExclusive, batchStart, batchSize. lia. Qed.

Lemma skipn_cons {A : Type} k (l : list A) e rest :
  skipn k l = e :: rest -> nth_error l k = Some e /\ skipn (S k) l = rest.
Proof.
  revert l; induction k as [|k IH]; intros [|x l] H; simpl in H; try discriminate.
  - injection H as <- <-. auto.
  - apply IH, H.
Qed.

Section GenerateFacts.

Variable V : Type.
Variable isNull : V -> bool.
Variable truthy : V -> bool.

Lemma length_jobsFrom (req : Generate.request V) idx entries :
  List.length ((Generate.jobsFrom V isNull truthy) req idx entries) = List.length entries.
Proof.
  revert idx; induction entries as [|e es IH]; intros idx; simpl; [reflexivity|].
  rewrite IH. reflexivity.
Qed.

Lemma titles_jobsFrom (req : Generate.request V) idx entries :
  List.map (Generate.jobTitle V) ((Generate.jobsFrom V isNull truthy) req idx entries) = List.map name entries.
Proof.
  revert idx; induction entries as [|e es IH]; intros idx; simpl; [reflexivity|].
  rewrite IH. f_equal. unfold Generate.jobTitle, Generate.renderJob. simpl.
  destruct (truthy _ && _ && _); reflexivity.
Qed.

Lemma files_jobsFrom (req : Generate.request V) idx entries f :
  In f (List.map fst ((Generate.jobsFrom V isNull truthy) req idx entries)) ->
  exists j e, (idx <= j)%Z /\ f = outputFileName j e.
Proof.
  revert idx; induction entries as [|e es IH]; intros idx; simpl; [tauto|].
  intros [<-|H].
  - exists idx, e. split; [lia | reflexivity].
  - destruct (IH _ H) as (j & e' & Hj & ->). exists j, e'. split; [lia | reflexivity].
Qed.

Lemma NoDup_jobsFrom (req : Generate.request V) idx entries :
  (0 <= idx)%Z -> NoDup (List.map fst ((Generate.jobsFrom V isNull truthy) req idx entries)).
Proof.
  revert idx; induction entries as [|e es IH]; intros idx Hidx; simpl.
  - constructor.
  - constructor; [|apply IH; lia].
    intros H. apply files_jobsFrom in H as (j & e' & Hj & H).
    apply outputFileName_index in H; lia.
Qed.

(** In range, the loop finds every record it asks for. *)
Lemma generateLoop_ok (req : Generate.request V) names n idx :
  (0 <= idx)%Z ->
  (n = 0 \/ Z.to_nat idx + n <= List.length names)%nat ->
  (Generate.generateLoop V isNull truthy) req names n idx =
  Ok ((Generate.jobsFrom V isNull truthy) req idx (firstn n (skipn (Z.to_nat idx) names))).
Proof.
  revert idx; induction n as [|n IH]; intros idx Hidx Hn; [reflexivity|].
  destruct Hn as [Hn|Hn]; [discriminate|].
  cbn [Generate.generateLoop]. unfold entryAt.
  destruct (Z.ltb_spec idx 0) as [Hneg|_]; [lia|].
  destruct (skipn (Z.to_nat idx) names) as [|e rest] eqn:E.
  - apply (f_equal (@List.length item)) in E. rewrite length_skipn in E.
    simpl in E. lia.
  - destruct (skipn_cons _ _ _ _ E) as [Hnth Hrest].
    rewrite Hnth.
    rewrite (IH (idx + 1)%Z) by lia.
    replace (Z.to_nat (idx + 1)) with (S (Z.to_nat idx)) by lia.
    rewrite Hrest. reflexivity.
Qed.

Lemma generateJobs_eq (req : Generate.request V) names :
  (Generate.generateJobs V isNull truthy) req names =
  Ok ((Generate.jobsFrom V isNull truthy) req (batchStart (Generate.offset V req))
        (firstn (Z.to_nat (processed (List.length names)
                             (Generate.offset V req) (Generate.limit V req)))
           (skipn (Z.to_nat (batchStart (Generate.offset V req))) names))).
Proof.
  unfold Generate.generateJobs, processed.
  pose proof (batch_bounds (List.length names) (Generate.offset V req)
                (Generate.limit V req)) as (H0 & _ & H1 & _).
  apply generateLoop_ok; [exact H0 | lia].
Qed.

(** Whatever offset and limit the request has, negative or beyond the
    list, the loop asks for no record that is not there: the batch never
    throws, has 50 calls at most, and draws the names of consecutive
    records of the list. *)
Theorem generate_stays_in_range (req : Generate.request V) names :
  exists jobs,
    (Generate.generateJobs V isNull truthy) req names = Ok jobs /\
    (List.length jobs <= 50)%nat /\
    List.map (Generate.jobTitle V) jobs =
    List.map name
      (firstn (Z.to_nat (processed (List.length names)
                           (Generate.offset V req) (Generate.limit V req)))
         (skipn (Z.to_nat (batchStart (Generate.offset V req))) names)).
Proof.
  rewrite generateJobs_eq. eexists. split; [reflexivity|].
  split; [|apply titles_jobsFrom].
  rewrite length_jobsFrom, length_firstn.
  pose proof (batch_bounds (List.length names) (Generate.offset V req)
                (Generate.limit V req)) as (_ & _ & _ & H).
  unfold processed. lia.
Qed.

(** The files of one batch have different names. *)
Theorem generate_files_distinct (req : Generate.request V) names jobs :
  (Generate.generateJobs V isNull truthy) req names = Ok jobs -> NoDup (List.map fst jobs).
Proof.
  rewrite generateJobs_eq. intros [= <-]. apply NoDup_jobsFrom.
  apply batch_bounds with (total := 0%nat) (limit := None).
Qed.

(** For an offset and a limit that are missing or are integers a
    JavaScript number holds exactly, the count [processed] of the response
    is the number of files of the batch when it is not negative; it is
    negative, and the batch is empty, exactly when the offset is beyond
    the end of the list or the limit is negative.  (A limit with a
    fraction is outside this statement.) *)
Theorem processed_count (req : Generate.request V) names jobs :
  safeInteger (Generate.offset V req) ->
  safeInteger (Generate.limit V req) ->
  (Generate.generateJobs V isNull truthy) req names = Ok jobs ->
  let p := processed (List.length names)
             (Generate.offset V req) (Generate.limit V req) in
  Z.of_nat (List.length jobs) = Z.max 0 p /\
  ((p < 0)%Z <->
   (Z.of_nat (List.length names) < batchStart (Generate.offset V req))%Z \/
   (batchSize (Generate.limit V req) < 0)%Z).
Proof.
  intros _ _. rewrite generateJobs_eq. intros [= <-]. cbv zeta.
  rewrite length_jobsFrom, length_firstn, length_skipn.
  pose proof (batch_bounds (List.length names) (Generate.offset V req)
                (Generate.limit V req)) as (H0 & _ & H1 & _).
  unfold processed, endExclusive in *. lia.
Qed.

Lemma numberOr_zero z : numberOr (Some z) 0 = z.
Proof.
  unfold numberOr. destruct (Z.eqb_spec z 0) as [->|_]; reflexivity.
Qed.

Lemma titles_at_offset (req : Generate.request V) names k :
  (1 <= batchSize (Generate.limit V req))%Z ->
  Generate.titles V
    ((Generate.generateJobs V isNull truthy)
       (Generate.withOffset V req
          (Some (Z.of_nat k * batchSize (Generate.limit V req))%Z)) names) =
  List.map name
    (firstn (Z.to_nat (batchSize (Generate.limit V req)))
       (skipn (k * Z.to_nat (batchSize (Generate.limit V req))) names)).
Proof.
  intros Hb. rewrite generateJobs_eq. cbn [Generate.titles].
  rewrite titles_jobsFrom. f_equal.
  cbn [Generate.withOffset Generate.offset Generate.limit].
  unfold processed, endExclusive, batchStart. rewrite numberOr_zero.
  set (b := batchSize (Generate.limit V req)) in *.
  replace (Z.to_nat (Z.max 0 (Z.of_nat k * b))) with (k * Z.to_nat b)%nat by nia.
  rewrite <- (firstn_min_length (Z.to_nat b)). f_equal.
  rewrite length_skipn. nia.
Qed.

(** For a limit that is missing or is an integer a JavaScript number
    holds exactly, with a batch size of 1 at least: asking for batch after
    batch, each offset one batch size further than the one before (offsets
    that a JavaScript number holds exactly), draws every name of the list
    once and in order: the first [n] batches together draw the first [n]
    times the batch size names.  (A limit with a fraction is outside this
    statement.) *)
Theorem batches_tile_the_list (req : Generate.request V) names n :
  safeInteger (Generate.limit V req) ->
  (Z.of_nat n * batchSize (Generate.limit V req) <= 2 ^ 53 - 1)%Z ->
  (1 <= batchSize (Generate.limit V req))%Z ->
  List.concat
    (List.map
       (fun k =>
          Generate.titles V
            ((Generate.generateJobs V isNull truthy)
               (Generate.withOffset V req
                  (Some (Z.of_nat k * batchSize (Generate.limit V req))%Z))
               names))
       (seq 0 n)) =
  List.map name
    (firstn (n * Z.to_nat (batchSize (Generate.limit V req))) names).
Proof.
  intros _ _ Hb. induction n as [|n IH]; [reflexivity|].
  rewrite seq_S, map_app, concat_app, IH. cbn [List.map List.concat plus].
  rewrite app_nil_r, (titles_at_offset req names n Hb), <- map_app.
  f_equal. rewrite <- firstn_plus. f_equal. lia.
Qed.

End GenerateFacts.

(** ** A spreadsheet cell read as a line of text *)

Lemma trimStart_app_stays a c b :
  isWhiteSpace c = false -> trimStart (a ++ c :: b) = trimStart a ++ c :: b.
Proof.
  intros Hc. rewrite trimStart_app. destruct (allWhiteSpace a) eqn:Ha.
  - rewrite (trimStart_allWhiteSpace a Ha). simpl. rewrite Hc. reflexivity.
  - reflexivity.
Qed.

Lemma trimEnd_app_stays a c b :
  isWhiteSpace c = false -> trimEnd (a ++ c :: b) = a ++ c :: trimEnd b.
Proof.
  intros Hc. unfold trimEnd. rewrite rev_app_distr. simpl rev.
  rewrite <- app_assoc. simpl app.
  rewrite (trimStart_app_stays (rev b) c (rev a) Hc).
  rewrite rev_app_distr. simpl rev. rewrite rev_involutive, <- app_assoc.
  reflexivity.
Qed.

Lemma trim_around a c b :
  isWhiteSpace c = false -> trim (a ++ c :: b) = trimStart a ++ c :: trimEnd b.
Proof.
  intros Hc. unfold trim. rewrite (trimStart_app_stays a c b Hc).
  apply trimEnd_app_stays, Hc.
Qed.

Lemma trim_trimStart s : trim (trimStart s) = trim s.
Proof. unfold trim. rewrite trimStart_idem. reflexivity. Qed.

Lemma trim_trimEnd s : trim (trimEnd s) = trim s.
Proof. unfold trim. rewrite trimStart_trimEnd, trimEnd_idem. reflexivity. Qed.

Lemma In_trimEnd c s : In c (trimEnd s) -> In c s.
Proof.
  unfold trimEnd. intros H. apply in_rev, In_trimStart, in_rev in H. exact H.
Qed.

Lemma existsb_ext_in {A : Type} (p q : A -> bool) xs :
  (forall x, In x xs -> p x = q x) -> existsb p xs = existsb q xs.
Proof.
  induction xs as [|x xs IH]; simpl; [reflexivity|].
  intros H. rewrite (H x (or_introl eq_refl)), IH; [reflexivity|].
  intros y Hy. apply H. now right.
Qed.

Lemma split_ext_in (p q : codeunit -> bool) s :
  (forall c, In c s -> p c = q c) -> split p s = split q s.
Proof.
  induction s as [|c s IH]; simpl; [reflexivity|].
  intros H. rewrite (H c (or_introl eq_refl)), IH; [reflexivity|].
  intros d Hd. apply H. now right.
Qed.

Lemma isColonOrTab_isColon s :
  includes TAB s = false -> forall c, In c s -> isColonOrTab c = isColon c.
Proof.
  intros Ht c Hc. unfold isColonOrTab, isColon.
  rewrite includes_existsb in Ht.
  rewrite (existsb_false_In _ s c Ht Hc). apply orb_false_r.
Qed.

(** The first segment of a text with its end trimmed, up to trimming. *)
Lemma split_trimEnd_head (sep : codeunit -> bool) s seg segs :
  (forall c, sep c = true -> isWhiteSpace c = false) ->
  split sep s = seg :: segs ->
  exists seg' segs',
    split sep (trimEnd s) = seg' :: segs' /\ trim seg' = trim seg.
Proof.
  intros Hsep E. destruct (existsb sep s) eqn:Hs.
  - destruct (first_separator _ _ Hs) as (pre & d & post & -> & Hpre & Hd).
    rewrite (split_first sep pre d post Hpre Hd) in E. injection E as <- <-.
    rewrite (trimEnd_app_stays pre d post (Hsep d Hd)).
    rewrite (split_first sep pre d _ Hpre Hd). eauto.
  - rewrite (split_none sep s Hs) in E. injection E as <- <-.
    assert (Hs' : existsb sep (trimEnd s) = false).
    { apply (existsb_false_incl sep s); [|exact Hs].
      intros c. apply In_trimEnd. }
    rewrite (split_none sep _ Hs'). exists (trimEnd s), [].
    split; [reflexivity | apply trim_trimEnd].
Qed.

Lemma parseRow_as_line r :
  trim (cellText r 1) = [] ->
  includes TAB (cellText r 0) = false ->
  (List.length (split isEquals (cellText r 0)) <= 2)%nat ->
  parseRow r = parseLine (cellText r 0).
Proof.
  intros H1 Htab Hlen. unfold parseRow. rewrite H1. cbn [isEmpty andb].
  set (cell := cellText r 0) in *.
  destruct (includes EQUALS cell) eqn:Heq.
  - rewrite <- isEquals_includes in Heq.
    destruct (first_separator _ _ Heq) as (pre & d & post & E & Hpre & Hd).
    apply N.eqb_eq in Hd. subst d. rewrite E in *.
    rewrite (split_first isEquals pre EQUALS post Hpre eq_refl) in Hlen.
    assert (Hpost : existsb isEquals post = false).
    { rewrite <- split_two. apply Nat.leb_gt. simpl in Hlen. lia. }
    rewrite (trim_around pre EQUALS post eq_refl).
    assert (Hpre' : existsb isEquals (trimStart pre) = false)
      by (apply (existsb_false_incl isEquals pre); [intros c; apply In_trimStart | exact Hpre]).
    assert (Hpost' : existsb isEquals (trimEnd post) = false)
      by (apply (existsb_false_incl isEquals post); [intros c; apply In_trimEnd | exact Hpost]).
    rewrite <- isEquals_includes, existsb_app. cbn [existsb].
    change (isEquals EQUALS) with true. rewrite orb_true_r. cbn [orb].
    rewrite (split_first isEquals _ EQUALS _ Hpre' eq_refl).
    rewrite (split_none isEquals _ Hpost').
    cbn [trimAt nth_error bind]. rewrite trim_trimStart, trim_trimEnd.
    rewrite isEquals_includes in Hpre.
    rewrite (parseLine_equals pre post Hpre). reflexivity.
  - assert (Heq' : includes EQUALS (trim cell) = false)
      by (apply (includes_false_incl EQUALS cell); [intros c; apply In_trim | exact Heq]).
    rewrite Heq'. cbn [andb].
    destruct (includes COLON cell) eqn:Hc.
    + rewrite <- isColon_includes in Hc.
      destruct (first_separator _ _ Hc) as (pre & d & rest & E & Hpre & Hd).
      apply N.eqb_eq in Hd. subst d. rewrite E in *.
      rewrite (trim_around pre COLON rest eq_refl).
      assert (Hpre' : existsb isColon (trimStart pre) = false)
        by (apply (existsb_false_incl isColon pre); [intros c; apply In_trimStart | exact Hpre]).
      rewrite <- isColon_includes, existsb_app. cbn [existsb].
      change (isColon COLON) with true. rewrite orb_true_r. cbn [orb].
      rewrite (split_first isColon _ COLON _ Hpre' eq_refl).
      destruct (split_cons_shape isColon rest) as (seg & segs & Eseg).
      destruct (split_trimEnd_head isColon rest seg segs) as (seg' & segs' & E' & Htrim);
        [intros c Hcc; apply N.eqb_eq in Hcc; subst c; reflexivity | exact Eseg |].
      rewrite E'. cbn [trimAt nth_error bind]. rewrite trim_trimStart, Htrim.
      symmetry. apply (parseLine_alt pre COLON rest seg segs Heq).
      * rewrite (existsb_ext_in isColonOrTab isColon); [exact Hpre|].
        intros c Hin. apply (isColonOrTab_isColon _ Htab). apply in_or_app. now left.
      * reflexivity.
      * rewrite (split_ext_in isColonOrTab isColon); [exact Eseg|].
        intros c Hin. apply (isColonOrTab_isColon _ Htab).
        apply in_or_app. right. now right.
    + assert (Hc' : includes COLON (trim cell) = false)
        by (apply (includes_false_incl COLON cell); [intros c; apply In_trim | exact Hc]).
      rewrite Hc'. symmetry. apply parseLine_plain; [exact Heq|].
      rewrite isColonOrTab_includes, Hc, Htab. reflexivity.
Qed.

(** A row with nothing in its second cell whose first cell has no tab and
    one equals sign at most is read as the text parser reads the cell as a
    line. *)
Theorem row_read_as_line r :
  trim (cellText r 1) = [] ->
  includes TAB (cellText r 0) = false ->
  (List.length (split isEquals (cellText r 0)) <= 2)%nat ->
  parseRow r = parseLine (cellText r 0).
Proof. apply parseRow_as_line. Qed.

Lemma row_read_as_line_witness :
  trim (cellText [Some (lit " Bob Martin : Table 10 ")] 1) = [] /\
  includes TAB (cellText [Some (lit " Bob Martin : Table 10 ")] 0) = false /\
  (List.length
     (split isEquals (cellText [Some (lit " Bob Martin : Table 10 ")] 0)) <= 2)%nat /\
  parseRow [Some (lit " Bob Martin : Table 10 ")] =
  parseLine (cellText [Some (lit " Bob Martin : Table 10 ")] 0).
Proof.
  split; [reflexivity|]. split; [reflexivity|]. split; [simpl; lia|].
  apply (row_read_as_line [Some (lit " Bob Martin : Table 10 ")]);
    [reflexivity | reflexivity | simpl; lia].
Defined.

(** ** Reading the list file *)

Lemma rows_output_named data out it :
  extractNamesFromRows data = Ok out -> In it out ->
  name it <> [] /\ trim (name it) = name it.
Proof.
  rewrite extractNamesFromRows_eq. intros [= <-] Hin.
  apply filter_In in Hin as [Hin Hname].
  apply in_map_iff in Hin as (r & <- & _).
  split; [|apply rowItem_trimmed].
  apply negb_true_iff, isEmpty_false in Hname. exact Hname.
Qed.

Section ListFileFacts.

Variable toLowerCase : jsstring -> jsstring.
Hypothesis toLowerCase_empty : toLowerCase [] = [].

Lemma text_output_named text out it :
  parseNamesFromText toLowerCase text = Ok out -> In it out ->
  name it <> [] /\ trim (name it) = name it.
Proof.
  unfold parseNamesFromText. rewrite parseRawLines_eq. intros [= <-] Hin.
  apply filter_In in Hin as [Hin Hkeep].
  apply in_map_iff in Hin as (line & <- & _).
  split; [|apply lineItem_trimmed].
  apply keepItem_true in Hkeep as [_ Hnorm].
  intros E. apply Hnorm. unfold norm. rewrite E, toLowerCase_empty. reflexivity.
Qed.

Lemma parseNamesFromText_ok text :
  exists out, parseNamesFromText toLowerCase text = Ok out.
Proof. eexists. apply parseRawLines_eq. Qed.

(** Whatever the type of the list file, every record that
    [extractNamesFromFile] returns has a name that is not empty and is
    trimmed. *)
Theorem extractNamesFromFile_named f out it :
  extractNamesFromFile toLowerCase f = Returns out ->
  In it out ->
  name it <> [] /\ trim (name it) = name it.
Proof.
  unfold extractNamesFromFile.
  assert (Hre : forall text o,
             rethrow (parseNamesFromText toLowerCase text) = Returns o ->
             In it o -> name it <> [] /\ trim (name it) = name it).
  { intros text o. destruct (parseNamesFromText toLowerCase text) eqn:E;
      simpl; [|discriminate].
    intros [= <-]. apply (text_output_named text _ it E). }
  assert (Hor : forall text o,
             orNone (parseNamesFromText toLowerCase text) = Returns o ->
             In it o -> name it <> [] /\ trim (name it) = name it).
  { intros text o. destruct (parseNamesFromText toLowerCase text) eqn:E; simpl.
    - intros [= <-]. apply (text_output_named text _ it E).
    - intros [= <-] []. }
  destruct (JS.eqb _ (lit ".csv")).
  { destruct (utf8 f); [apply Hre | discriminate]. }
  destruct (JS.eqb _ (lit ".xlsx") || JS.eqb _ (lit ".xls")).
  { destruct (sheetRows f) as [data|]; [|discriminate].
    destruct (extractNamesFromRows data) eqn:E; simpl; [|discriminate].
    intros [= <-]. apply (rows_output_named data _ it E). }
  destruct (JS.eqb _ (lit ".docx")).
  { destruct (docxValue f); [apply Hre | discriminate]. }
  destruct (JS.eqb _ (lit ".pdf")).
  { destruct (pdfText f); [apply Hor | intros [= <-] []]. }
  destruct (utf8 f); [apply Hor | intros [= <-] []].
Qed.

End ListFileFacts.

Section ListFileThrows.

Variable toLowerCase : jsstring -> jsstring.

Lemma eqb_neq s t : s <> t -> JS.eqb s t = false.
Proof.
  intros H. destruct (JS.eqb s t) eqn:E; [|reflexivity].
  apply eqb_eq in E. contradiction.
Qed.

Lemma extractNamesFromFile_throws_iff f :
  extractNamesFromFile toLowerCase f = Throws <->
  (toLowerCase (extname f) = lit ".csv" /\ utf8 f = Throws) \/
  ((toLowerCase (extname f) = lit ".xlsx" \/
    toLowerCase (extname f) = lit ".xls") /\ sheetRows f = Throws) \/
  (toLowerCase (extname f) = lit ".docx" /\ docxValue f = Throws).
Proof.
  unfold extractNamesFromFile.
  assert (Hre : forall text,
             rethrow (parseNamesFromText toLowerCase text) <> Throws).
  { intros text. destruct (parseNamesFromText_ok toLowerCase text) as (o & ->).
    discriminate. }
  assert (Hor : forall text,
             orNone (parseNamesFromText toLowerCase text) <> Throws).
  { intros text. destruct (parseNamesFromText toLowerCase text); discriminate. }
  set (ext := toLowerCase (extname f)).
  destruct (JS.eqb ext (lit ".csv")) eqn:Ecsv.
  { apply eqb_eq in Ecsv. rewrite Ecsv.
    destruct (utf8 f) as [content|].
    - split; [intros H; destruct (Hre _ H)|].
      intros [[_ H]|[[[H|H] _]|[H _]]]; discriminate H.
    - split; auto. }
  assert (Ncsv : ext <> lit ".csv")
    by (intros E; apply eqb_eq in E; congruence).
  destruct (JS.eqb ext (lit ".xlsx") || JS.eqb ext (lit ".xls")) eqn:Exl.
  { apply orb_true_iff in Exl. rewrite !eqb_eq in Exl.
    destruct (sheetRows f) as [data|].
    - rewrite extractNamesFromRows_eq. simpl.
      split; [discriminate|].
      intros [[H _]|[[_ H]|[H _]]]; try discriminate H; try contradiction.
      destruct Exl as [E|E]; rewrite E in H; discriminate H.
    - split; auto. }
  apply orb_false_iff in Exl as [Exlsx Exls].
  assert (Nxlsx : ext <> lit ".xlsx")
    by (intros E; apply eqb_eq in E; congruence).
  assert (Nxls : ext <> lit ".xls")
    by (intros E; apply eqb_eq in E; congruence).
  destruct (JS.eqb ext (lit ".docx")) eqn:Edocx.
  { apply eqb_eq in Edocx.
    destruct (docxValue f) as [value|].
    - split; [intros H; destruct (Hre _ H)|].
      intros [[H _]|[[[H|H] _]|[_ H]]]; try contradiction; discriminate H.
    - split; auto. }
  assert (Ndocx : ext <> lit ".docx")
    by (intros E; apply eqb_eq in E; congruence).
  assert (Hnone : (ext = lit ".csv" /\ utf8 f = Throws) \/
                  ((ext = lit ".xlsx" \/ ext = lit ".xls") /\
                   sheetRows f = Throws) \/
                  (ext = lit ".docx" /\ docxValue f = Throws) -> False)
    by tauto.
  destruct (JS.eqb ext (lit ".pdf")).
  { destruct (pdfText f) as [t|].
    - split; [intros H; destruct (Hor _ H) | intros H; destruct (Hnone H)].
    - split; [discriminate | intros H; destruct (Hnone H)]. }
  destruct (utf8 f) as [content|].
  - split; [intros H; destruct (Hor _ H) | intros H; destruct (Hnone H)].
  - split; [discriminate | intros H; destruct (Hnone H)].
Qed.

Lemma rethrow_parse text :
  exists out,
    parseNamesFromText toLowerCase text = Ok out /\
    rethrow (parseNamesFromText toLowerCase text) = Returns out.
Proof.
  destruct (parseNamesFromText_ok toLowerCase text) as (out & E).
  exists out. rewrite E. auto.
Qed.

Lemma orNone_parse text :
  exists out,
    parseNamesFromText toLowerCase text = Ok out /\
    orNone (parseNamesFromText toLowerCase text) = Returns out.
Proof.
  destruct (parseNamesFromText_ok toLowerCase text) as (out & E).
  exists out. rewrite E. auto.
Qed.

(** [extractNamesFromFile] throws exactly when the reader of the file
    throws for a .csv, .xlsx, .xls or .docx file.  A PDF or a file of
    another type that cannot be read gives the empty list.  What a reader
    returns is always parsed: the result is the records of the text, or of
    the rows, that was read. *)
Theorem extractNamesFromFile_throws f :
  (extractNamesFromFile toLowerCase f = Throws <->
   (toLowerCase (extname f) = lit ".csv" /\ utf8 f = Throws) \/
   ((toLowerCase (extname f) = lit ".xlsx" \/
     toLowerCase (extname f) = lit ".xls") /\ sheetRows f = Throws) \/
   (toLowerCase (extname f) = lit ".docx" /\ docxValue f = Throws)) /\
  (toLowerCase (extname f) = lit ".pdf" ->
   pdfText f = Throws ->
   extractNamesFromFile toLowerCase f = Returns []) /\
  (toLowerCase (extname f) <> lit ".csv" ->
   toLowerCase (extname f) <> lit ".xlsx" ->
   toLowerCase (extname f) <> lit ".xls" ->
   toLowerCase (extname f) <> lit ".docx" ->
   toLowerCase (extname f) <> lit ".pdf" ->
   (utf8 f = Throws -> extractNamesFromFile toLowerCase f = Returns []) /\
   (forall content,
       utf8 f = Returns content ->
       exists out,
         parseNamesFromText toLowerCase content = Ok out /\
         extractNamesFromFile toLowerCase f = Returns out)) /\
  (forall content,
      toLowerCase (extname f) = lit ".csv" ->
      utf8 f = Returns content ->
      exists out,
        parseNamesFromText toLowerCase content = Ok out /\
        extractNamesFromFile toLowerCase f = Returns out) /\
  (forall data,
      toLowerCase (extname f) = lit ".xlsx" \/
      toLowerCase (extname f) = lit ".xls" ->
      sheetRows f = Returns data ->
      exists out,
        extractNamesFromRows data = Ok out /\
        extractNamesFromFile toLowerCase f = Returns out) /\
  (forall value,
      toLowerCase (extname f) = lit ".docx" ->
      docxValue f = Returns value ->
      exists out,
        parseNamesFromText toLowerCase (orEmpty value) = Ok out /\
        extractNamesFromFile toLowerCase f = Returns out) /\
  (forall t,
      toLowerCase (extname f) = lit ".pdf" ->
      pdfText f = Returns t ->
      exists out,
        parseNamesFromText toLowerCase (orEmpty t) = Ok out /\
        extractNamesFromFile toLowerCase f = Returns out).
Proof.
  split; [apply extractNamesFromFile_throws_iff|].
  unfold extractNamesFromFile.
  split; [|split; [|split; [|split; [|split]]]].
  - intros E H. rewrite E, H. reflexivity.
  - intros N1 N2 N3 N4 N5.
    rewrite (eqb_neq _ _ N1), (eqb_neq _ _ N2), (eqb_neq _ _ N3),
      (eqb_neq _ _ N4), (eqb_neq _ _ N5).
    cbn [orb]. split.
    + intros H. rewrite H. reflexivity.
    + intros content H. rewrite H. apply orNone_parse.
  - intros content E H. rewrite E, H. apply rethrow_parse.
  - intros data E H.
    assert (Hxl : JS.eqb (toLowerCase (extname f)) (lit ".csv") = false /\
                  JS.eqb (toLowerCase (extname f)) (lit ".xlsx") ||
                  JS.eqb (toLowerCase (extname f)) (lit ".xls") = true)
      by (destruct E as [E|E]; rewrite E; split; reflexivity).
    destruct Hxl as [-> ->]. rewrite H, extractNamesFromRows_eq.
    eexists. split; reflexivity.
  - intros value E H. rewrite E, H. apply rethrow_parse.
  - intros t E H. rewrite E, H. apply orNone_parse.
Qed.

End ListFileThrows.

Lemma extractNamesFromFile_throws_witness :
  (toLowerCaseLatin1 (extname samplePdfFile) = lit ".pdf" /\
   pdfText samplePdfFile = Throws /\
   extractNamesFromFile toLowerCaseLatin1 samplePdfFile = Returns []) /\
  (toLowerCaseLatin1 (extname sampleListFile) = lit ".docx" /\
   docxValue sampleListFile = Returns (Some testCases) /\
   exists out,
     parseNamesFromText toLowerCaseLatin1 (orEmpty (Some testCases)) = Ok out /\
     extractNamesFromFile toLowerCaseLatin1 sampleListFile = Returns out).
Proof.
  split.
  - split; [reflexivity|]. split; [reflexivity|].
    destruct (extractNamesFromFile_throws toLowerCaseLatin1 samplePdfFile)
      as (_ & Hpdf & _).
    apply Hpdf; reflexivity.
  - split; [reflexivity|]. split; [reflexivity|].
    destruct (extractNamesFromFile_throws toLowerCaseLatin1 sampleListFile)
      as (_ & _ & _ & _ & _ & Hdocx & _).
    apply Hdocx; reflexivity.
Defined.

Lemma extractNamesFromFile_named_witness :
  toLowerCaseLatin1 [] = [] /\
  name johnDoe <> [] /\ trim (name johnDoe) = name johnDoe.
Proof.
  split; [reflexivity|].
  apply (extractNamesFromFile_named toLowerCaseLatin1 eq_refl sampleListFile
           [ johnDoe;
             mkItem (lit "Jane Smith") (lit "Table 5");
             mkItem (lit "Bob Martin") (lit "Table 10");
             mkItem (lit "Alice Wonderland") (lit "Table 2");
             mkItem (lit "Just a Name") [];
             mkItem (lit "Name") (lit "Table = Something") ]
           johnDoe).
  - vm_compute. reflexivity.
  - left. reflexivity.
Defined.

(** ** Witnesses for the overlay text and the batches *)

Lemma safeStr_is_character_data_witness :
  safeStr (Some (lit "A<B & C")) = lit "A&lt;B " ++ AMPERSAND :: lit "amp; C" /\
  exists b', lit "amp; C" = lit "amp;" ++ b' \/ lit "amp; C" = lit "lt;" ++ b' \/
             lit "amp; C" = lit "gt;" ++ b'.
Proof.
  split; [reflexivity|].
  destruct (safeStr_is_character_data (Some (lit "A<B & C"))) as (_ & _ & H).
  apply (H (lit "A&lt;B ") (lit "amp; C")). reflexivity.
Defined.

Lemma generate_files_distinct_witness :
  NoDup
    (List.map fst
       (Generate.jobsFrom bool sampleNull sampleTruthy sampleRequest 1
          [ mkItem (lit "Jane Smith") (lit "Table 5");
            mkItem (lit "John Doe") (lit "Table 9") ])).
Proof.
  apply (generate_files_distinct bool sampleNull sampleTruthy sampleRequest
           sampleNames).
  vm_compute. reflexivity.
Defined.

Lemma processed_count_witness :
  safeInteger (Some 1%Z) /\ safeInteger (Some 2%Z) /\
  Z.of_nat 2 = Z.max 0 (processed 3 (Some 1%Z) (Some 2%Z)) /\
  ((processed 3 (Some 1%Z) (Some 2%Z) < 0)%Z <->
   (Z.of_nat 3 < batchStart (Some 1%Z))%Z \/ (batchSize (Some 2%Z) < 0)%Z).
Proof.
  split; [simpl; lia|]. split; [simpl; lia|].
  apply (processed_count bool sampleNull sampleTruthy sampleRequest sampleNames
           (Generate.jobsFrom bool sampleNull sampleTruthy sampleRequest 1
              [ mkItem (lit "Jane Smith") (lit "Table 5");
                mkItem (lit "John Doe") (lit "Table 9") ])).
  - simpl. lia.
  - simpl. lia.
  - vm_compute. reflexivity.
Defined.

Lemma batches_tile_the_list_witness :
  safeInteger (Some 2%Z) /\
  (Z.of_nat 2 * batchSize (Some 2%Z) <= 2 ^ 53 - 1)%Z /\
  (1 <= batchSize (Some 2%Z))%Z /\
  List.concat
    (List.map
       (fun k =>
          Generate.titles bool
            (Generate.generateJobs bool sampleNull sampleTruthy
               (Generate.withOffset bool sampleRequest
                  (Some (Z.of_nat k * batchSize (Some 2%Z))%Z))
               sampleNames))
       (seq 0 2)) =
  List.map name (firstn (2 * Z.to_nat (batchSize (Some 2%Z))) sampleNames).
Proof.
  split; [simpl; lia|].
  split; [vm_compute; discriminate|].
  split; [vm_compute; discriminate|].
  apply (batches_tile_the_list bool sampleNull sampleTruthy sampleRequest
           sampleNames 2).
  - simpl. lia.
  - vm_compute. discriminate.
  - vm_compute. discriminate.
Defined.

(** A request with an offset beyond the list: no file, and a negative
    count. *)
Example processed_beyond_the_list :
  Generate.generateJobs bool sampleNull sampleTruthy
    (Generate.withOffset bool sampleRequest (Some 20%Z)) sampleNames = Ok [] /\
  processed 3 (Some 20%Z) (Some 2%Z) = (-17)%Z.
Proof. split; reflexivity. Qed.

(** ** The DOCX utility *)

Lemma mapM_exists {A B : Type} (f : A -> result B) xs :
  (forall x, exists y, f x = Ok y) -> exists ys, mapM f xs = Ok ys.
Proof.
  intros H. induction xs as [|x xs [ys IH]]; simpl; [eauto|].
  destruct (H x) as (y & ->). rewrite IH. simpl. eauto.
Qed.

Lemma mapM_In {A B : Type} (f : A -> result B) xs ys y :
  mapM f xs = Ok ys -> In y ys -> exists x, In x xs /\ f x = Ok y.
Proof.
  revert ys; induction xs as [|x xs IH]; simpl; intros ys H Hy.
  - injection H as <-. destruct Hy.
  - destruct (f x) as [b|] eqn:Eb; simpl in H; [|discriminate].
    destruct (mapM f xs) as [bs|]; simpl in H; [|discriminate].
    injection H as <-. destruct Hy as [<-|Hy]; [eauto|].
    destruct (IH bs eq_refl Hy) as (x' & Hx' & E). eauto.
Qed.

Lemma parseDocxLine_name line it :
  parseDocxLine line = Ok it ->
  trim (name it) = name it /\ includes EQUALS (name it) = false.
Proof.
  destruct (includes EQUALS line) eqn:Heq.
  - rewrite <- isEquals_includes in Heq.
    destruct (first_separator _ _ Heq) as (pre & d & post & -> & Hpre & Hd).
    apply N.eqb_eq in Hd. subst d. rewrite isEquals_includes in Hpre.
    rewrite (parseDocxLine_equals _ _ Hpre). intros [= <-]. simpl.
    split; [apply trim_idem|].
    apply (includes_false_incl EQUALS pre (trim pre));
      [intros c; apply In_trim | exact Hpre].
  - rewrite (parseDocxLine_plain _ Heq). intros [= <-]. simpl.
    split; [apply trim_idem|].
    apply (includes_false_incl EQUALS line (trim line));
      [intros c; apply In_trim | exact Heq].
Qed.

Section DocxFacts.

Variable toLowerCase : jsstring -> jsstring.
Hypothesis toLowerCase_empty : toLowerCase [] = [].

(** The DOCX utility never falls back on its [catch]: its result is the
    filtered array of the records of the lines; and every record in it has
    a name that is not empty, is trimmed and has no equals sign. *)
Theorem parseDocxNames_named text :
  (exists items,
      mapM parseDocxLine (filter notBlank (splitLines text)) = Ok items /\
      parseDocxNames toLowerCase text = filter (keepItem toLowerCase) items) /\
  (forall it, In it (parseDocxNames toLowerCase text) ->
      name it <> [] /\ trim (name it) = name it /\
      includes EQUALS (name it) = false).
Proof.
  destruct (mapM_exists parseDocxLine (filter notBlank (splitLines text))
              parseDocxLine_total) as (items & E).
  unfold parseDocxNames. rewrite E. split; [eauto|].
  intros it Hin. apply filter_In in Hin as [Hin Hkeep].
  destruct (mapM_In _ _ _ _ E Hin) as (line & _ & Hline).
  destruct (parseDocxLine_name line it Hline) as [Htrim Heq].
  split; [|auto].
  apply keepItem_true in Hkeep as [_ Hnorm].
  intros En. apply Hnorm. unfold norm. rewrite En, toLowerCase_empty. reflexivity.
Qed.

End DocxFacts.

Lemma parseDocxNames_named_witness :
  toLowerCaseLatin1 [] = [] /\
  name johnDoe <> [] /\ trim (name johnDoe) = name johnDoe /\
  includes EQUALS (name johnDoe) = false.
Proof.
  split; [reflexivity|].
  apply (proj2 (parseDocxNames_named toLowerCaseLatin1 eq_refl testCases) johnDoe).
  vm_compute. left. reflexivity.
Defined.
